(** * xtcp: the TCP server of [server.go]

    A shallow embedding of [Server] (construction, accept loop, registry of
    live connections, three-mode stop) as a system of goroutines that take
    atomic steps on one shared [Server] object, and the properties of it
    that the specification states.

    Conventions.
    - Pointers ([*ServerOpts], [*Conn]) are addresses into a heap; an address
      that the heap does not hold is a nil (or dangling) pointer, and
      dereferencing it panics.
    - [s.mu] is not a field of the model: every region between [s.mu.Lock()]
      and [s.mu.Unlock()] is one atomic step.
    - What the program does to the outside (listening, closing, logging,
      calls into [conn.go]) is appended to a trace of events.
    - Results that the environment decides (what [net.Listen] and [Accept]
      return, whether a timer has fired, whether [NewConn] fails) come with
      the step, as an [Oracle]. *)

From stdpp Require Import base numbers list gmap strings.
From Stdlib Require Strings.Byte.

#[local] Set Warnings "-clear-no-such-hyp".

(** ** Handles and pointers *)

Abbreviation Listener := nat (only parsing).   (* a [net.Listener] *)
Abbreviation RawHandle := nat (only parsing).  (* a [net.Conn] *)
Abbreviation ConnPtr := nat (only parsing).    (* a [*Conn] *)
Abbreviation OptsPtr := nat (only parsing).    (* a [*ServerOpts] *)
Abbreviation HandlerRef := nat (only parsing). (* a [Handler] interface value *)
Abbreviation ProtocolRef := nat (only parsing). (* a [Protocol] interface value *)

(** [StopMode] is declared in [conn.go]; [server.go] uses these three
    values of it. *)
Inductive StopMode :=
  | StopImmediately
  | StopGracefullyButNotWait
  | StopGracefullyAndWait.

Global Instance StopMode_eq_dec : EqDecision StopMode.
Proof. solve_decision. Defined.

(** [var DefaultSendBufLength uint = 128]: a package variable that nothing
    in the package assigns to. *)
Definition DefaultSendBufLength : N := 128%N.

(** [type ServerOpts struct] *)
Record ServerOpts := mkServerOpts {
  LisAddr : string;
  Handler : HandlerRef;
  Protocol : ProtocolRef;
  SendBufLen : N;       (* uint *)
}.

(** [type Server struct].  [stop] is the channel [stop chan struct{}] that
    [NewServer] makes: nothing is ever sent on it, so its state is whether
    it has been closed.  [wg] is the counter of the [sync.WaitGroup].
    [conns] is [None] for the nil map. *)
Record Server := mkServer {
  Opts : OptsPtr;
  stop : bool;
  wg : Z;
  lis : option Listener;
  conns : option (gmap nat bool);
}.

Definition set_stop (b : bool) (s : Server) : Server :=
  mkServer (Opts s) b (wg s) (lis s) (conns s).
Definition set_wg (n : Z) (s : Server) : Server :=
  mkServer (Opts s) (stop s) n (lis s) (conns s).
Definition set_lis (l : option Listener) (s : Server) : Server :=
  mkServer (Opts s) (stop s) (wg s) l (conns s).
Definition set_conns (m : option (gmap nat bool)) (s : Server) : Server :=
  mkServer (Opts s) (stop s) (wg s) (lis s) m.

(** The part of [Conn] ([conn.go]) that [server.go] touches. *)
Record Conn := mkConn {
  RawConn : option RawHandle;
}.

(** ** Construction *)

Definition set_SendBufLen (n : N) (o : ServerOpts) : ServerOpts :=
  mkServerOpts (LisAddr o) (Handler o) (Protocol o) n.

(** [func NewServer(opts *ServerOpts) *Server].  The server keeps the
    pointer it is given; the test [s.Opts.SendBufLen == 0] and the assignment
    go through that pointer, into the caller's struct.  [None]: nil pointer
    dereference. *)
Definition NewServer (opts : OptsPtr) (h : gmap nat ServerOpts)
  : option (Server * gmap nat ServerOpts) :=
  let s := mkServer opts false 0 None (Some ∅) in
  match h !! Opts s with
  | None => None
  | Some o =>
      if (SendBufLen o =? 0)%N
      then Some (s, <[Opts s := set_SendBufLen DefaultSendBufLength o]> h)
      else Some (s, h)
  end.

(** The send-buffer length that the server works with: the one line 153
    reads through [s.Opts] when it makes a connection. *)
Definition sendBufLenOf (s : Server) (h : gmap nat ServerOpts) : option N :=
  SendBufLen <$> h !! Opts s.

(** ** The registry *)

(** [func (s *Server) addConn(conn *Conn) bool] *)
Definition addConn (conn : ConnPtr) (s : Server) : Server * bool :=
  match conns s with
  | None => (s, false)
  | Some m => (set_conns (Some (<[conn := true]> m)) s, true)
  end.

(** [func (s *Server) removeConn(conn *Conn)] *)
Definition removeConn (conn : ConnPtr) (s : Server) : Server :=
  match conns s with
  | Some m => set_conns (Some (delete conn m)) s
  | None => s
  end.

(** Whether [removeConn] finds the connection in the registry. *)
Definition registered (conn : ConnPtr) (s : Server) : bool :=
  match conns s with
  | Some m => bool_decide (is_Some (m !! conn))
  | None => false
  end.

(** ** Events *)

Inductive LogMsg :=
  | LogListenError (addr : string)   (* line 59, [xlog.Fatalf] *)
  | LogListenOn (l : Listener)       (* line 63 *)
  | LogAcceptRetry (tempDelay : Z)   (* line 83 *)
  | LogAcceptClosed                  (* line 96 *)
  | LogServerStop.                   (* line 141 *)

(** What a run leaves behind.  [EvStopClosed], [EvAddConn] and
    [EvRemoveConn] record operations on the server's own state ([close] of
    the stop channel, the calls of [addConn] and [removeConn] with their
    outcome); the others are calls that leave [server.go]. *)
Inductive Event :=
  | EvLog (m : LogMsg)
  | EvListen (addr : string)                 (* [net.Listen("tcp", addr)] *)
  | EvListenerClose (l : Listener)           (* [lis.Close()] *)
  | EvRawClose (r : RawHandle)               (* [conn.Close()] *)
  | EvAfter (d : Z)                          (* [time.After(d)] *)
  | EvNewConn (handler : HandlerRef) (protocol : ProtocolRef) (sendBufLen : N)
      (ok : bool)                            (* [NewConn(...)], and whether it
                                                returned without error *)
  | EvConnStop (c : ConnPtr) (m : StopMode)  (* [c.Stop(m)] *)
  | EvConnServe (c : ConnPtr)                (* [tcpConn.serve()] has returned *)
  | EvWgWait                                 (* [s.wg.Wait()] has returned *)
  | EvStopClosed                             (* [close(s.stop)] *)
  | EvAddConn (c : ConnPtr) (ok : bool)
  | EvRemoveConn (c : ConnPtr) (deleted : bool).

Global Instance LogMsg_eq_dec : EqDecision LogMsg.
Proof. solve_decision. Defined.
Global Instance Event_eq_dec : EqDecision Event.
Proof. solve_decision. Defined.

(** ** Time *)

(** [time.Duration] is an [int64] of nanoseconds. *)
Definition wrap64 (z : Z) : Z := ((z + 2 ^ 63) `mod` 2 ^ 64 - 2 ^ 63)%Z.
Definition Millisecond : Z := 1000000.
Definition Second : Z := 1000000000.

(** Lines 75-82: the delay before the next [Accept] after a temporary
    error, from the delay of the previous one ([0] when there was none). *)
Definition nextDelay (tempDelay : Z) : Z :=
  let tempDelay :=
    if (tempDelay =? 0)%Z then wrap64 (5 * Millisecond)
    else wrap64 (tempDelay * 2) in
  let max := wrap64 (1 * Second) in
  if (tempDelay >? max)%Z then max else tempDelay.

(** ** Goroutines *)

(** What [l.Accept()] returns: a stream, an error that is a [net.Error]
    (with what its [Temporary()] says), or another error. *)
Inductive AcceptResult :=
  | AcceptConn (conn : RawHandle)
  | AcceptNetError (temporary : bool)
  | AcceptOtherError.

(** Line 74: [nerr, ok := err.(net.Error); ok && nerr.Temporary()] *)
Definition isTemporary (r : AcceptResult) : bool :=
  match r with
  | AcceptNetError t => t
  | _ => false
  end.

(** What the environment contributes to a step. *)
Inductive Oracle :=
  | ONone
  | OListen (r : option Listener) (fatalExits : bool)
      (* the result of [net.Listen]; whether [xlog.Fatalf] ends the process *)
  | OAccept (r : AcceptResult)
  | OTimer (fired : bool) (timerFirst : bool)
      (* whether the channel of [time.After] is ready; which case [select]
         takes when both are *)
  | ONewConn (ok : bool).
      (* whether [NewConn] returns without error *)

(** Program points of [Serve]. *)
Inductive ServePc :=
  | ServeEntry                               (* line 55 *)
  | ServeListen                              (* lines 57-63 *)
  | ServeBind (l : Listener)                 (* lines 65-67 *)
  | ServeAccept (l : Listener) (tempDelay : Z)   (* lines 72-83, 92-103 *)
  | ServeBackoff (l : Listener) (tempDelay : Z)  (* lines 84-89 *)
  | ServeDone                                (* line 43, deferred *)
  | ServeUnbind.                             (* lines 45-52, deferred *)

(** Program points of [handleRawConn]. *)
Inductive HandlePc :=
  | HandleEntry                     (* lines 145-151 *)
  | HandleNewConn                   (* lines 153-157 *)
  | HandleAddConn (c : ConnPtr)     (* lines 159-162 *)
  | HandleWgAdd (c : ConnPtr)       (* line 169 *)
  | HandleServe (c : ConnPtr)       (* line 170 *)
  | HandleRemoveConn (c : ConnPtr)  (* line 165, deferred *)
  | HandleWgDone (c : ConnPtr).     (* line 166, deferred *)

(** Program points of [Stop]; the locals [lis] and [conns] live from line
    116 and 119 on. *)
Inductive StopPc :=
  | StopClose                                              (* line 112 *)
  | StopSwap                                               (* lines 114-122 *)
  | StopCloseLis (lis : option Listener) (conns : option (gmap nat bool))
                                                           (* lines 124-126 *)
  | StopFanout (conns : option (gmap nat bool))            (* lines 128-135 *)
  | StopWait.                                              (* lines 137-141 *)

Inductive Goroutine :=
  | GServe (pc : ServePc)
  | GHandle (conn : RawHandle) (pc : HandlePc)
  | GStop (mode : StopMode) (pc : StopPc)
  | GExit.

(** ** The system *)

Record World := mkWorld {
  srv : Server;
  opts_heap : gmap nat ServerOpts;
  conn_heap : gmap nat Conn;
  next_conn : nat;              (* the next address [NewConn] allocates at *)
  goroutines : list Goroutine;  (* a goroutine's id is its index *)
  trace : list Event;
  halted : bool;                (* the process has ended: panic or exit *)
}.

Definition with_srv (s : Server) (σ : World) : World :=
  mkWorld s (opts_heap σ) (conn_heap σ) (next_conn σ) (goroutines σ) (trace σ) (halted σ).
Definition alloc_conn (c : Conn) (σ : World) : World :=
  mkWorld (srv σ) (opts_heap σ) (<[next_conn σ := c]> (conn_heap σ)) (S (next_conn σ))
    (goroutines σ) (trace σ) (halted σ).
Definition goto (tid : nat) (g : Goroutine) (σ : World) : World :=
  mkWorld (srv σ) (opts_heap σ) (conn_heap σ) (next_conn σ) (<[tid := g]> (goroutines σ))
    (trace σ) (halted σ).
Definition go (g : Goroutine) (σ : World) : World :=
  mkWorld (srv σ) (opts_heap σ) (conn_heap σ) (next_conn σ) (goroutines σ ++ [g])
    (trace σ) (halted σ).
Definition emit (evs : list Event) (σ : World) : World :=
  mkWorld (srv σ) (opts_heap σ) (conn_heap σ) (next_conn σ) (goroutines σ)
    (trace σ ++ evs) (halted σ).
Definition halt (σ : World) : World :=
  mkWorld (srv σ) (opts_heap σ) (conn_heap σ) (next_conn σ) (goroutines σ) (trace σ) true.

(** The world right after [NewServer]: no goroutine of the server runs. *)
Definition boot (s : Server) (h : gmap nat ServerOpts) : World :=
  mkWorld s h ∅ 0 [] [] false.

(** [s.wg.Add(1)].  Of the [sync.WaitGroup] the counter is modelled, and
    [Wait] as a step that can be taken when the counter is zero.  Its
    waiters are not: the panics by which it answers an [Add] that races
    with a [Wait] do not occur here, so that a run goes on where the
    program would have ended in such a panic. *)
Definition wg_Add (σ : World) : World :=
  with_srv (set_wg (wg (srv σ) + 1) (srv σ)) σ.

(** [s.wg.Done()]: a counter that would become negative is a panic. *)
Definition wg_Done (σ : World) : World :=
  if (wg (srv σ) - 1 <? 0)%Z then halt σ
  else with_srv (set_wg (wg (srv σ) - 1) (srv σ)) σ.

(** [if lis != nil { lis.Close() }] *)
Definition closeListener (lis : option Listener) : list Event :=
  match lis with
  | Some l => [EvListenerClose l]
  | None => []
  end.

(** *** [func (s *Server) Serve()]

    A step is [None] when the goroutine cannot move: it is blocked, or the
    oracle is not the one its program point asks for.  A panic (here the
    dereference of a nil [s.Opts]) ends the process; what the deferred
    function would still do on the way out is not modelled. *)
Definition Serve_step (tid : nat) (o : Oracle) (pc : ServePc) (σ : World)
  : option World :=
  let s := srv σ in
  match pc, o with
  | ServeEntry, ONone =>
      Some (goto tid (GServe ServeListen) (wg_Add σ))
  | ServeListen, OListen r fatalExits =>
      match opts_heap σ !! Opts s with
      | None => Some (halt σ)
      | Some opts =>
          let σ := emit [EvListen (LisAddr opts)] σ in
          match r with
          | None =>
              let σ := emit [EvLog (LogListenError (LisAddr opts))] σ in
              if fatalExits then Some (halt σ)
              else Some (goto tid (GServe ServeDone) σ)
          | Some l =>
              Some (goto tid (GServe (ServeBind l)) (emit [EvLog (LogListenOn l)] σ))
          end
      end
  | ServeBind l, ONone =>
      Some (goto tid (GServe (ServeAccept l 0)) (with_srv (set_lis (Some l) s) σ))
  | ServeAccept l tempDelay, OAccept r =>
      match r with
      | AcceptConn conn =>
          (* tempDelay = 0; go s.handleRawConn(conn) *)
          Some (go (GHandle conn HandleEntry) (goto tid (GServe (ServeAccept l 0)) σ))
      | _ =>
          if isTemporary r then
            let tempDelay := nextDelay tempDelay in
            Some (goto tid (GServe (ServeBackoff l tempDelay))
                    (emit [EvLog (LogAcceptRetry tempDelay); EvAfter tempDelay] σ))
          else
            (* select { case <-s.stop: default: xlog.Errorf(...) }; return *)
            Some (goto tid (GServe ServeDone)
                    (emit (if stop s then [] else [EvLog LogAcceptClosed]) σ))
      end
  | ServeBackoff l tempDelay, OTimer fired timerFirst =>
      (* select { case <-time.After(tempDelay): continue; case <-s.stop: return } *)
      match fired, stop s with
      | true, true =>
          if timerFirst then Some (goto tid (GServe (ServeAccept l tempDelay)) σ)
          else Some (goto tid (GServe ServeDone) σ)
      | true, false => Some (goto tid (GServe (ServeAccept l tempDelay)) σ)
      | false, true => Some (goto tid (GServe ServeDone) σ)
      | false, false => None
      end
  | ServeDone, ONone =>
      Some (goto tid (GServe ServeUnbind) (wg_Done σ))
  | ServeUnbind, ONone =>
      let lis := lis s in
      let s := set_lis None s in
      Some (goto tid GExit (emit (closeListener lis) (with_srv s σ)))
  | _, _ => None
  end.

(** *** [func (s *Server) handleRawConn(conn net.Conn)]

    [NewConn] is in [conn.go]: the call with the arguments that line 153
    reads through [s.Opts] is an event, and whether it fails is the
    oracle's.  When it does not, it allocates the connection, and line 157
    stores the stream in it. *)
Definition handleRawConn_step (tid : nat) (o : Oracle) (conn : RawHandle)
    (pc : HandlePc) (σ : World) : option World :=
  let s := srv σ in
  match pc, o with
  | HandleEntry, ONone =>
      match conns s with
      | None => Some (goto tid GExit (emit [EvRawClose conn] σ))
      | Some _ => Some (goto tid (GHandle conn HandleNewConn) σ)
      end
  | HandleNewConn, ONewConn ok =>
      match opts_heap σ !! Opts s with
      | None => Some (halt σ)
      | Some opts =>
          let σ := emit [EvNewConn (Handler opts) (Protocol opts) (SendBufLen opts) ok]
                     σ in
          if ok then
            let tcpConn := next_conn σ in
            Some (goto tid (GHandle conn (HandleAddConn tcpConn))
                    (alloc_conn (mkConn (Some conn)) σ))
          else Some (goto tid GExit σ)
      end
  | HandleAddConn tcpConn, ONone =>
      let '(s', ok) := addConn tcpConn s in
      let σ := emit [EvAddConn tcpConn ok] (with_srv s' σ) in
      if ok then Some (goto tid (GHandle conn (HandleWgAdd tcpConn)) σ)
      else Some (goto tid GExit (emit [EvConnStop tcpConn StopImmediately] σ))
  | HandleWgAdd tcpConn, ONone =>
      Some (goto tid (GHandle conn (HandleServe tcpConn)) (wg_Add σ))
  | HandleServe tcpConn, ONone =>
      Some (goto tid (GHandle conn (HandleRemoveConn tcpConn))
              (emit [EvConnServe tcpConn] σ))
  | HandleRemoveConn tcpConn, ONone =>
      Some (goto tid (GHandle conn (HandleWgDone tcpConn))
              (emit [EvRemoveConn tcpConn (registered tcpConn s)]
                 (with_srv (removeConn tcpConn s) σ)))
  | HandleWgDone tcpConn, ONone =>
      Some (goto tid GExit (wg_Done σ))
  | _, _ => None
  end.

(** *** [func (s *Server) Stop(mode StopMode)] *)

(** Lines 128-132: the mode that each connection is stopped with. *)
Definition perConnMode (mode : StopMode) : StopMode :=
  let m := mode in
  if decide (m = StopGracefullyAndWait) then StopGracefullyButNotWait else m.

(** [for c := range conns]; a nil map has no entries.  Go leaves the order
    open. *)
Definition rangeConns (conns : option (gmap nat bool)) : list ConnPtr :=
  match conns with
  | Some m => (map_to_list m).*1
  | None => []
  end.

Definition Stop_step (tid : nat) (o : Oracle) (mode : StopMode) (pc : StopPc)
    (σ : World) : option World :=
  let s := srv σ in
  match pc, o with
  | StopClose, ONone =>
      (* close of a closed channel panics *)
      if stop s then Some (halt σ)
      else Some (goto tid (GStop mode StopSwap)
                   (emit [EvStopClosed] (with_srv (set_stop true s) σ)))
  | StopSwap, ONone =>
      let lis := lis s in
      let s := set_lis None s in
      let conns := conns s in
      let s := set_conns None s in
      Some (goto tid (GStop mode (StopCloseLis lis conns)) (with_srv s σ))
  | StopCloseLis lis conns, ONone =>
      Some (goto tid (GStop mode (StopFanout conns)) (emit (closeListener lis) σ))
  | StopFanout conns, ONone =>
      let m := perConnMode mode in
      Some (goto tid (GStop mode StopWait)
              (emit ((λ c, EvConnStop c m) <$> rangeConns conns) σ))
  | StopWait, ONone =>
      if decide (mode = StopGracefullyAndWait) then
        (* s.wg.Wait() returns when the counter is zero *)
        if (wg s =? 0)%Z
        then Some (goto tid GExit (emit [EvWgWait; EvLog LogServerStop] σ))
        else None
      else Some (goto tid GExit (emit [EvLog LogServerStop] σ))
  | _, _ => None
  end.

(** *** Interleavings *)

Definition gstep (tid : nat) (o : Oracle) (g : Goroutine) (σ : World)
  : option World :=
  match g with
  | GServe pc => Serve_step tid o pc σ
  | GHandle conn pc => handleRawConn_step tid o conn pc σ
  | GStop mode pc => Stop_step tid o mode pc σ
  | GExit => None
  end.

(** The application calls [Serve] or [Stop] in some goroutine, or a
    goroutine of the server takes its next step. *)
Inductive Label :=
  | CallServe
  | CallStop (mode : StopMode)
  | Run (tid : nat) (o : Oracle).

(** Nothing moves once the process has ended, and a step that is not
    enabled changes nothing. *)
Definition step (a : Label) (σ : World) : World :=
  if halted σ then σ
  else match a with
       | CallServe => go (GServe ServeEntry) σ
       | CallStop mode => go (GStop mode StopClose) σ
       | Run tid o =>
           match goroutines σ !! tid with
           | Some g => default σ (gstep tid o g σ)
           | None => σ
           end
       end.

(** An interleaving is the list of its steps. *)
Definition run (sched : list Label) (σ : World) : World :=
  fold_left (λ σ a, step a σ) sched σ.

(** * The protocol of the test: length, then message

    [myProtocol] of the test file frames a message as a big-endian [uint32]
    that counts the whole frame, its own four bytes included, and then the
    bytes of the message.  [None] is a panic. *)

(** [type myPacket struct { msg string }]; a Go string is its bytes. *)
Record myPacket := mkPacket {
  msg : list Byte.byte;
}.

(** A value of the interface [Packet]: a [*myPacket], or anything else (nil
    too), on which the type assertion to [*myPacket] panics. *)
Inductive Packet :=
  | PacketMy (p : myPacket)
  | PacketOther.

Definition byte_val (b : Byte.byte) : Z := Z.of_N (Byte.to_N b).
Definition byte_of (z : Z) : Byte.byte :=
  default Byte.x00 (Byte.of_N (Z.to_N (z `mod` 256))).

(** The conversion [uint32(n)] of an [int]. *)
Definition uint32 (n : Z) : Z := n `mod` 2 ^ 32.

(** [binary.BigEndian.PutUint32] and [binary.BigEndian.Uint32]; the
    latter panics on fewer than four bytes. *)
Definition PutUint32 (v : Z) : list Byte.byte :=
  [byte_of (v `div` 2 ^ 24); byte_of (v `div` 2 ^ 16); byte_of (v `div` 2 ^ 8);
   byte_of v].
Definition Uint32 (b : list Byte.byte) : option Z :=
  match b with
  | b0 :: b1 :: b2 :: b3 :: _ =>
      Some (byte_val b0 * 2 ^ 24 + byte_val b1 * 2 ^ 16 + byte_val b2 * 2 ^ 8
            + byte_val b3)%Z
  | _ => None
  end.

(** The slice expression [buf[lo:hi]] for [hi] within the length. *)
Definition slice (buf : list Byte.byte) (lo hi : Z) : option (list Byte.byte) :=
  if decide (0 ≤ lo ∧ lo ≤ hi ∧ hi ≤ Z.of_nat (length buf))%Z
  then Some (take (Z.to_nat (hi - lo)) (drop (Z.to_nat lo) buf))
  else None.

(** [io.Writer]: [Write(p)] returns the number of bytes written and whether
    there was an error, and leaves the writer changed. *)
Class Writer (W : Type) := Write : list Byte.byte → W → nat * bool * W.

(** [bytes.Buffer]: [Write] appends and does not fail. *)
Record Buffer := mkBuffer {
  Bytes : list Byte.byte;
}.
Global Instance Buffer_Writer : Writer Buffer :=
  λ p buf, (length p, false, mkBuffer (Bytes buf ++ p)).

(** [binary.Write(w, binary.BigEndian, v)] for a [uint32]: one [Write] of
    the four bytes, of which the error is returned. *)
Definition binary_Write {W} `{Writer W} (w : W) (v : Z) : bool * W :=
  let '(_, err, w) := Write (PutUint32 v) w in (err, w).

(** [func (mp *myProtocol) PackSize(p Packet) int] *)
Definition PackSize (p : Packet) : option Z :=
  match p with
  | PacketMy q => Some (4 + Z.of_nat (length (msg q)))%Z
  | PacketOther => None
  end.

(** [func (mp *myProtocol) PackTo(p Packet, w io.Writer) (int, error)] *)
Definition PackTo {W} `{Writer W} (p : Packet) (w : W) : option (Z * bool * W) :=
  msgLen ← PackSize p;
  let wl := 0%Z in
  let '(err, w) := binary_Write w (uint32 msgLen) in
  if err then Some (wl, true, w)
  else match p with
       | PacketMy q =>
           let '(n, err, w) := Write (msg q) w in
           let wl := (wl + Z.of_nat n)%Z in
           if err then Some (wl, true, w) else Some (wl, false, w)
       | PacketOther => None
       end.

(** [func (mp *myProtocol) Pack(p Packet) ([]byte, error)] *)
Definition Pack (p : Packet) : option (list Byte.byte * bool) :=
  len ← PackSize p;
  if decide (len ≠ 0%Z) then
    let buf := mkBuffer [] in
    '(_, err, buf) ← PackTo p buf;
    Some (Bytes buf, err)
  else Some ([], true).

(** [func (mp *myProtocol) Unpack(buf []byte) (Packet, int, error)]: the
    packet ([None] for nil), the bytes consumed, whether there is an
    error. *)
Definition Unpack (buf : list Byte.byte) : option (option myPacket * Z * bool) :=
  if (Z.of_nat (length buf) <? 4)%Z then Some (None, 0%Z, false)
  else
    msgLen ← Uint32 (take 4 buf);
    if (Z.of_nat (length buf) <? msgLen)%Z then Some (None, 0%Z, false)
    else
      msg ← slice buf 4 msgLen;
      Some (Some (mkPacket msg), msgLen, false).

(** * The handler of the test

    [myHandler.OnEvent] calls [c.Send] and [c.Stop] of [conn.go]: the calls
    are what it returns here, with the handler as it leaves it.  The string
    of [time.Now()] comes with the event.  [None] is a panic. *)

(** [EventType] is declared in [conn.go]; the handler tells these three
    apart from all others. *)
Inductive EventType :=
  | EventConnected
  | EventSend
  | EventRecv
  | EventOther.

Global Instance EventType_eq_dec : EqDecision EventType.
Proof. solve_decision. Defined.

Inductive ConnCall :=
  | ConnSend (p : myPacket)
  | ConnStop (mode : StopMode).

(** [type myHandler struct] *)
Record myHandler := mkHandler {
  name : list Byte.byte;
  sends : list (list Byte.byte);
  recvs : list (list Byte.byte);
}.

(** [func (h *myHandler) OnEvent(et EventType, c *Conn, p Packet)] *)
Definition OnEvent (et : EventType) (p : Packet) (now : list Byte.byte)
    (h : myHandler) : option (myHandler * list ConnCall) :=
  match et with
  | EventConnected =>
      let sendMsg := mkPacket (name h ++ now) in
      Some (h, [ConnSend sendMsg])
  | EventSend =>
      match p with
      | PacketMy q =>
          Some (mkHandler (name h) (sends h ++ [msg q]) (recvs h), [])
      | PacketOther => None
      end
  | EventRecv =>
      match p with
      | PacketMy q =>
          let h := mkHandler (name h) (sends h) (recvs h ++ [msg q]) in
          if length (recvs h) =? 10
          then Some (h, [ConnStop StopGracefullyButNotWait])
          else
            let sendMsg := mkPacket (name h ++ now) in
            Some (h, [ConnSend sendMsg])
      | PacketOther => None
      end
  | EventOther => Some (h, [])
  end.

(** The events of a connection, one after the other. *)
Fixpoint OnEvents (evs : list (EventType * Packet * list Byte.byte))
    (h : myHandler) : option (myHandler * list ConnCall) :=
  match evs with
  | [] => Some (h, [])
  | (et, p, now) :: evs =>
      '(h, calls) ← OnEvent et p now h;
      '(h, calls') ← OnEvents evs h;
      Some (h, calls ++ calls')
  end.

(** * What the properties are stated with *)

(** ** Backoff *)

(** The delays as the specification lists them: 5ms, doubled with each
    further failure, at most 1000ms.  [backoffDelay k] is the delay after
    failure number [k], counting from zero. *)
Definition backoffDelay (k : nat) : Z :=
  Z.min (5 * 2 ^ Z.of_nat k * Millisecond) (1000 * Millisecond).

(** The delays as the code computes them, [n] failures in a row after a
    delay of [d]. *)
Fixpoint delaysFrom (d : Z) (n : nat) : list Z :=
  match n with
  | 0 => []
  | S n => nextDelay d :: delaysFrom (nextDelay d) n
  end.

(** What the loop does for each delay: line 83 and [time.After]. *)
Definition retryEvents (ds : list Z) : list Event :=
  ds ≫= λ d, [EvLog (LogAcceptRetry d); EvAfter d].

(** [n] times: [Accept] returns a temporary error, and the timer fires. *)
Fixpoint temporaryErrors (tid : nat) (n : nat) : list Label :=
  match n with
  | 0 => []
  | S n => Run tid (OAccept (AcceptNetError true)) :: Run tid (OTimer true true)
           :: temporaryErrors tid n
  end.

(** ** Traces *)

(** The events of one step. *)
Definition step_events (a : Label) (σ : World) : list Event :=
  drop (length (trace σ)) (trace (step a σ)).

(** The connection that a call of [handleRawConn] holds in [tcpConn]. *)
Definition conn_of (pc : HandlePc) : option ConnPtr :=
  match pc with
  | HandleEntry | HandleNewConn => None
  | HandleAddConn c | HandleWgAdd c | HandleServe c | HandleRemoveConn c
  | HandleWgDone c => Some c
  end.

(** The calls of [removeConn] on [c], whatever they found. *)
Definition is_removeConn (c : ConnPtr) (e : Event) : bool :=
  match e with
  | EvRemoveConn c' _ => bool_decide (c' = c)
  | _ => false
  end.

(** The closes of the stop channel. *)
Definition is_stopClosed (e : Event) : bool :=
  match e with
  | EvStopClosed => true
  | _ => false
  end.

(** How often [removeConn] has been called on [c]; how often the stop
    channel has been closed. *)
Definition removeCalls (c : ConnPtr) (tr : list Event) : nat :=
  length (List.filter (is_removeConn c) tr).
Definition stopCloses (tr : list Event) : nat :=
  length (List.filter is_stopClosed tr).

(** Events that are no operation on the registry. *)
Definition quiet (e : Event) : bool :=
  match e with
  | EvAddConn _ _ | EvRemoveConn _ _ => false
  | _ => true
  end.

(** ** The invariant of the registry

    Every connection that a call of [handleRawConn] holds was allocated
    before, wraps the stream of that call, and is held by no other call;
    [addConn] has been called on it only when its call is past line 159, and
    [removeConn] at most once, and only when its call is past line 165. *)
Record Inv (σ : World) : Prop := mkInv {
  inv_lt : ∀ tid conn pc c,
    goroutines σ !! tid = Some (GHandle conn pc) → conn_of pc = Some c →
    c < next_conn σ;
  inv_raw : ∀ tid conn pc c,
    goroutines σ !! tid = Some (GHandle conn pc) → conn_of pc = Some c →
    conn_heap σ !! c = Some (mkConn (Some conn));
  inv_uniq : ∀ tid1 tid2 conn1 conn2 pc1 pc2 c,
    goroutines σ !! tid1 = Some (GHandle conn1 pc1) → conn_of pc1 = Some c →
    goroutines σ !! tid2 = Some (GHandle conn2 pc2) → conn_of pc2 = Some c →
    tid1 = tid2;
  inv_add : ∀ c ok,
    EvAddConn c ok ∈ trace σ →
    c < next_conn σ
    ∧ ∀ tid conn, goroutines σ !! tid ≠ Some (GHandle conn (HandleAddConn c));
  inv_remove : ∀ c,
    removeCalls c (trace σ) ≤ 1
    ∧ (removeCalls c (trace σ) ≠ 0 →
       c < next_conn σ
       ∧ ∀ tid conn pc,
           goroutines σ !! tid = Some (GHandle conn pc) → conn_of pc = Some c →
           pc = HandleWgDone c);
}.

(** ** The handler of the test *)

(** The messages that come with the events of one type. *)
Definition messagesOf (et : EventType)
    (evs : list (EventType * Packet * list Byte.byte)) : list (list Byte.byte) :=
  evs ≫= λ '(et', p, _),
    match p with
    | PacketMy q => if decide (et' = et) then [msg q] else []
    | PacketOther => []
    end.

Definition is_ConnStop (c : ConnCall) : bool :=
  match c with
  | ConnStop _ => true
  | ConnSend _ => false
  end.

(** ** The goroutines of the server *)

(** The delay that an accept loop holds is within its bounds: none, or
    at least the first and at most the cap. *)
Definition delay_ok (g : Goroutine) : Prop :=
  match g with
  | GServe (ServeAccept _ d) => d = 0%Z ∨ (5 * Millisecond ≤ d ≤ Second)%Z
  | GServe (ServeBackoff _ d) => (5 * Millisecond ≤ d ≤ Second)%Z
  | _ => True
  end.

(** The goroutines between their [s.wg.Add(1)] and their [s.wg.Done()]. *)
Definition counted (g : Goroutine) : nat :=
  match g with
  | GServe (ServeListen | ServeBind _ | ServeAccept _ _ | ServeBackoff _ _
            | ServeDone) => 1
  | GHandle _ (HandleServe _ | HandleRemoveConn _ | HandleWgDone _) => 1
  | _ => 0
  end.

(** The calls of [Stop] that have not yet closed the stop channel. *)
Definition closing (g : Goroutine) : nat :=
  match g with
  | GStop _ StopClose => 1
  | _ => 0
  end.

(** The calls of [Stop] among the steps; the steps in which [net.Listen]
    fails and [xlog.Fatalf] ends the process. *)
Definition stopCalls (sched : list Label) : nat :=
  length (List.filter (λ a, match a with CallStop _ => true | _ => false end) sched).
Definition fatalListen (a : Label) : bool :=
  match a with
  | Run _ (OListen None true) => true
  | _ => false
  end.

(** The calls of [handleRawConn] between a successful [addConn] and their
    [removeConn], with the connection they hold. *)
Definition live (c : ConnPtr) (g : Goroutine) : Prop :=
  match g with
  | GHandle _ (HandleWgAdd c' | HandleServe c' | HandleRemoveConn c') => c' = c
  | _ => False
  end.

(** There is such a call for the connection. *)
Definition Live (σ : World) (c : ConnPtr) : Prop :=
  ∃ tid g, goroutines σ !! tid = Some g ∧ live c g.

(** The registry, when it is not nil, holds the connections of these calls
    and no others, each with the value true. *)
Definition RegInv (σ : World) : Prop :=
  ∀ m, conns (srv σ) = Some m →
       ∀ c, (is_Some (m !! c) ↔ Live σ c) ∧ (∀ b, m !! c = Some b → b = true).

(** The goroutines that hold a listener which they will store in [s.lis]
    or close. *)
Definition holds (l : Listener) (g : Goroutine) : nat :=
  match g with
  | GServe (ServeBind l') => if decide (l' = l) then 1 else 0
  | GStop _ (StopCloseLis (Some l') _) => if decide (l' = l) then 1 else 0
  | _ => 0
  end.

(** How often an event is in a trace. *)
Definition occurrences (e : Event) (tr : list Event) : nat :=
  length (filter (λ e', e' = e) tr).

(** ** The connections and [Stop] *)

(** Whether a registry holds the connection; a nil registry holds none. *)
Definition in_registry (c : ConnPtr) (conns : option (gmap nat bool)) : nat :=
  match conns with
  | Some m => if decide (is_Some (m !! c)) then 1 else 0
  | None => 0
  end.

(** The goroutines that are about to register the connection or to stop
    it: the call of [handleRawConn] before its [addConn], and a [Stop] that
    took a registry with the connection and has not yet been through its
    loop. *)
Definition pending (c : ConnPtr) (g : Goroutine) : nat :=
  match g with
  | GHandle _ (HandleAddConn c') => if decide (c' = c) then 1 else 0
  | GStop _ (StopCloseLis _ conns | StopFanout conns) => in_registry c conns
  | _ => 0
  end.

(** The calls of [c.Stop], whatever the mode. *)
Definition is_stopOf (c : ConnPtr) (e : Event) : bool :=
  match e with
  | EvConnStop c' _ => bool_decide (c' = c)
  | _ => false
  end.

Definition stopsOf (c : ConnPtr) (tr : list Event) : nat :=
  length (List.filter (is_stopOf c) tr).

(** Stopped, registered, or on the way to one of the two. *)
Definition owed (c : ConnPtr) (σ : World) : nat :=
  stopsOf c (trace σ) + in_registry c (conns (srv σ))
  + sum_list_with (pending c) (goroutines σ).

(** ** The life of a connection *)

(** The calls of [handleRawConn] by what they do next with the connection:
    [addConn] (line 159), [serve] (lines 169 and 170), [removeConn]
    (line 165). *)
Definition adding (c : ConnPtr) (g : Goroutine) : nat :=
  match g with
  | GHandle _ (HandleAddConn c') => if decide (c' = c) then 1 else 0
  | _ => 0
  end.

Definition serving (c : ConnPtr) (g : Goroutine) : nat :=
  match g with
  | GHandle _ (HandleWgAdd c' | HandleServe c') => if decide (c' = c) then 1 else 0
  | _ => 0
  end.

Definition removing (c : ConnPtr) (g : Goroutine) : nat :=
  match g with
  | GHandle _ (HandleRemoveConn c') => if decide (c' = c) then 1 else 0
  | _ => 0
  end.

(** [addConn] at most once, and not before the connection exists; [serve]
    once for each [addConn] that returned true, done or to come; [removeConn]
    once for each [serve], done or to come. *)
Record Lifecycle (c : ConnPtr) (σ : World) : Prop := mkLifecycle {
  life_add :
    occurrences (EvAddConn c true) (trace σ) + occurrences (EvAddConn c false) (trace σ)
    + sum_list_with (adding c) (goroutines σ) ≤ 1;
  life_fresh :
    next_conn σ ≤ c →
    occurrences (EvAddConn c true) (trace σ) + occurrences (EvAddConn c false) (trace σ)
    + sum_list_with (adding c) (goroutines σ) = 0;
  life_serve :
    occurrences (EvConnServe c) (trace σ) + sum_list_with (serving c) (goroutines σ)
    = occurrences (EvAddConn c true) (trace σ);
  life_remove :
    removeCalls c (trace σ) + sum_list_with (removing c) (goroutines σ)
    = occurrences (EvConnServe c) (trace σ);
}.

(** ** [Stop] that waits, and a connection on its way to [serve]

    [Serve] listens and accepts one stream; its [handleRawConn] registers the
    connection and is then overtaken, before line 169, by a [Stop] with
    [StopGracefullyAndWait], which runs up to its [s.wg.Wait()]; the accept
    loop ends on the closed listener; [Stop] is through with waiting; only
    then [handleRawConn] goes on. *)
Definition lateServe (l : Listener) (conn : RawHandle) : list Label :=
  [CallServe; Run 0 ONone; Run 0 (OListen (Some l) false); Run 0 ONone;
   Run 0 (OAccept (AcceptConn conn));
   Run 1 ONone; Run 1 (ONewConn true); Run 1 ONone;
   CallStop StopGracefullyAndWait; Run 2 ONone; Run 2 ONone; Run 2 ONone; Run 2 ONone;
   Run 0 (OAccept AcceptOtherError); Run 0 ONone; Run 0 ONone;
   Run 2 ONone;
   Run 1 ONone; Run 1 ONone].

(** * Properties *)

(** ** Steps of the system *)

Lemma step_halted (a : Label) (σ : World) :
  halted σ = true → step a σ = σ.
Proof. intros H. unfold step. by rewrite H. Qed.

Lemma step_Run (tid : nat) (o : Oracle) (g : Goroutine) (σ σ' : World) :
  halted σ = false →
  goroutines σ !! tid = Some g →
  gstep tid o g σ = Some σ' →
  step (Run tid o) σ = σ'.
Proof. intros Hh Hg Hs. unfold step. by rewrite Hh, Hg, Hs. Qed.

Lemma step_Run_blocked (tid : nat) (o : Oracle) (g : Goroutine) (σ : World) :
  goroutines σ !! tid = Some g →
  gstep tid o g σ = None →
  step (Run tid o) σ = σ.
Proof. intros Hg Hs. unfold step. rewrite Hg, Hs. by destruct (halted σ). Qed.

Lemma goto_lookup (tid : nat) (g g' : Goroutine) (σ : World) :
  goroutines σ !! tid = Some g →
  goroutines (goto tid g' σ) !! tid = Some g'.
Proof.
  intros Hg. simpl. apply list_lookup_insert_eq. by eapply lookup_lt_Some.
Qed.

Lemma run_cons (a : Label) (sched : list Label) (σ : World) :
  run (a :: sched) σ = run sched (step a σ).
Proof. done. Qed.

Lemma run_nil (σ : World) : run [] σ = σ.
Proof. done. Qed.

Lemma run_halted (sched : list Label) (σ : World) :
  halted σ = true → run sched σ = σ.
Proof.
  induction sched as [|a sched IH]; intros H; [done|].
  simpl. rewrite step_halted by done. by apply IH.
Qed.

(** ** Construction *)

(** C8.  [NewServer] on a valid options pointer returns a server, and the
    send-buffer length the server then works with is the configured one when
    that is not zero and 128 ([DefaultSendBufLength]) when it is zero: that
    is what [s.Opts.SendBufLen] holds, and, as long as the options are not
    written to, what [handleRawConn] passes to [NewConn].  The server is
    merely created: the stop channel is open, there is no listener, the
    registry is empty, the counter is zero, and in the world it starts from
    no goroutine runs and nothing has happened (no I/O). *)
Theorem NewServer_sendBufLen (opts : nat) (h : gmap nat ServerOpts) (o : ServerOpts) :
  h !! opts = Some o →
  ∃ s h', NewServer opts h = Some (s, h')
    ∧ sendBufLenOf s h'
      = Some (if (SendBufLen o =? 0)%N then 128%N else SendBufLen o)
    ∧ stop s = false ∧ lis s = None ∧ conns s = Some ∅ ∧ wg s = 0%Z
    ∧ goroutines (boot s h') = [] ∧ trace (boot s h') = []
    ∧ halted (boot s h') = false
    ∧ (∀ σ tid conn ok,
         halted σ = false → srv σ = s → opts_heap σ = h' →
         goroutines σ !! tid = Some (GHandle conn HandleNewConn) →
         trace (step (Run tid (ONewConn ok)) σ)
         = trace σ ++ [EvNewConn (Handler o) (Protocol o)
                         (if (SendBufLen o =? 0)%N then 128%N else SendBufLen o) ok]).
Proof.
  intros Ho. unfold NewServer, sendBufLenOf. simpl. rewrite Ho.
  destruct (SendBufLen o =? 0)%N eqn:Hz; eexists _, _; (split; [done|]); simpl.
  - rewrite lookup_insert_eq. split_and!; [done..|].
    intros σ tid conn ok Hh Hs Hheap Hg.
    destruct ok;
      (erewrite step_Run;
       [| done | done
        | simpl; rewrite Hs, Hheap; simpl; rewrite lookup_insert_eq; reflexivity]);
      done.
  - rewrite Ho. split_and!; [done..|].
    intros σ tid conn ok Hh Hs Hheap Hg.
    destruct ok;
      (erewrite step_Run;
       [| done | done | simpl; rewrite Hs, Hheap; simpl; rewrite Ho; reflexivity]);
      done.
Qed.

Lemma NewServer_sendBufLen_witness :
  ∃ s h', NewServer 5 {[ 5 := mkServerOpts ":8080" 1 2 0 ]} = Some (s, h')
    ∧ sendBufLenOf s h' = Some 128%N
    ∧ stop s = false ∧ lis s = None ∧ conns s = Some ∅ ∧ wg s = 0%Z
    ∧ goroutines (boot s h') = [] ∧ trace (boot s h') = []
    ∧ halted (boot s h') = false.
Proof.
  assert (Ho : ({[ 5 := mkServerOpts ":8080" 1 2 0 ]} : gmap nat ServerOpts) !! 5
               = Some (mkServerOpts ":8080" 1 2 0)) by reflexivity.
  destruct (NewServer_sendBufLen 5 _ _ Ho)
    as (s & h' & H1 & H2 & H3 & H4 & H5 & H6 & H7 & H8 & H9 & _).
  exists s, h'. split_and!; assumption.
Defined.

(** C10.  [NewServer] keeps the caller's pointer (it makes no copy) and
    writes through it: the caller's struct has [SendBufLen] overwritten with
    128 when it was zero, its other fields and every other struct are
    unchanged, the heap is unchanged when [SendBufLen] was not zero, and what
    the caller later writes into its struct is what the server reads. *)
Theorem NewServer_aliases_opts (opts : nat) (h : gmap nat ServerOpts) (o : ServerOpts) :
  h !! opts = Some o →
  ∃ s h', NewServer opts h = Some (s, h')
    ∧ Opts s = opts
    ∧ h' !! opts
      = Some (mkServerOpts (LisAddr o) (Handler o) (Protocol o)
                (if (SendBufLen o =? 0)%N then 128%N else SendBufLen o))
    ∧ (∀ p, p ≠ opts → h' !! p = h !! p)
    ∧ (SendBufLen o ≠ 0%N → h' = h)
    ∧ (∀ o', sendBufLenOf s (<[opts := o']> h') = Some (SendBufLen o')).
Proof.
  intros Ho. unfold NewServer, sendBufLenOf. simpl. rewrite Ho.
  destruct (SendBufLen o =? 0)%N eqn:Hz; eexists _, _; (split; [done|]); simpl.
  - split; [done|]. rewrite lookup_insert_eq. split; [done|].
    split; [by intros p Hp; rewrite lookup_insert_ne|].
    split; [by intros Hne; apply N.eqb_eq in Hz|].
    intros o'. by rewrite lookup_insert_eq.
  - split; [done|]. split; [by destruct o|].
    split; [done|]. split; [done|].
    intros o'. by rewrite lookup_insert_eq.
Qed.

Lemma NewServer_aliases_opts_witness :
  ∃ s h', NewServer 5 {[ 5 := mkServerOpts ":8080" 1 2 0 ]} = Some (s, h')
    ∧ Opts s = 5
    ∧ h' !! 5 = Some (mkServerOpts ":8080" 1 2 128)
    ∧ (∀ p, p ≠ 5 → h' !! p = ({[ 5 := mkServerOpts ":8080" 1 2 0 ]} : gmap nat ServerOpts) !! p)
    ∧ (0%N ≠ 0%N → h' = {[ 5 := mkServerOpts ":8080" 1 2 0 ]})
    ∧ (∀ o', sendBufLenOf s (<[5 := o']> h') = Some (SendBufLen o')).
Proof.
  exact (NewServer_aliases_opts 5 {[ 5 := mkServerOpts ":8080" 1 2 0 ]}
           (mkServerOpts ":8080" 1 2 0) eq_refl).
Defined.

(** ** Stop *)

Lemma rangeConns_NoDup (R : option (gmap nat bool)) : NoDup (rangeConns R).
Proof.
  destruct R as [m|]; simpl; [apply NoDup_fst_map_to_list | constructor].
Qed.

Lemma rangeConns_registered (c : nat) (s : Server) :
  c ∈ rangeConns (conns s) ↔ registered c s = true.
Proof.
  unfold registered, rangeConns. destruct (conns s) as [m|].
  - rewrite bool_decide_eq_true, list_elem_of_fmap. split.
    + intros [[c' b] [-> Hin]]. apply elem_of_map_to_list in Hin. by exists b.
    + intros [b Hb]. exists (c, b). split; [done|]. by apply elem_of_map_to_list.
  - split; [by intros ?%elem_of_nil | done].
Qed.

(** The steps of [Stop] from line 112 to line 135, when the stop channel is
    open and no other goroutine moves meanwhile. *)
Lemma Stop_steps (tid : nat) (mode : StopMode) (σ : World) :
  halted σ = false →
  goroutines σ !! tid = Some (GStop mode StopClose) →
  stop (srv σ) = false →
  let σ' := run [Run tid ONone; Run tid ONone; Run tid ONone; Run tid ONone] σ in
  trace σ' = trace σ
             ++ [EvStopClosed]
             ++ closeListener (lis (srv σ))
             ++ ((λ c, EvConnStop c (perConnMode mode)) <$> rangeConns (conns (srv σ)))
  ∧ goroutines σ' !! tid = Some (GStop mode StopWait)
  ∧ conns (srv σ') = None
  ∧ halted σ' = false.
Proof.
  intros Hh Hg Hs σ'. subst σ'.
  rewrite run_cons.
  erewrite step_Run; [| done | done | simpl; rewrite Hs; reflexivity].
  rewrite run_cons.
  erewrite step_Run; [| done | by eapply goto_lookup | reflexivity].
  rewrite run_cons.
  erewrite step_Run; [| done | by eapply goto_lookup, goto_lookup | reflexivity].
  rewrite run_cons.
  erewrite step_Run;
    [| done | by eapply goto_lookup, goto_lookup, goto_lookup | reflexivity].
  rewrite run_nil.
  split_and!.
  - simpl. by rewrite <- !app_assoc.
  - by eapply goto_lookup, goto_lookup, goto_lookup, goto_lookup.
  - done.
  - done.
Qed.

(** C3.  A call of [Stop] on a server whose stop channel is open, when no
    other goroutine moves meanwhile: it closes the stop channel, takes
    listener and registry, closes the listener (if there was one) and then
    calls [c.Stop(m)] once for each connection [c] that was in the registry
    when [Stop] was called, no connection twice, where [m] is
    [StopGracefullyButNotWait] when the mode of the call is
    [StopGracefullyAndWait] and the mode of the call otherwise; it is then at
    line 137.  Step by step, whatever the other goroutines do in between:
    line 112 closes the channel and goes on; the critical section takes the
    listener and the registry that it finds and leaves the registry nil; the
    loop of line 133 stops the connections of the registry that was taken,
    with [m].  At line 137 the goroutine cannot move exactly when the mode of
    the call is [StopGracefullyAndWait] and the counter is not zero, and when
    it moves it has waited on the counter exactly when the mode of the call
    is [StopGracefullyAndWait]. *)
Theorem Stop_fanout_modes (tid : nat) (mode : StopMode) (σ : World) :
  halted σ = false →
  stop (srv σ) = false →
  length (goroutines σ) = tid →
  let σ' := run [CallStop mode; Run tid ONone; Run tid ONone; Run tid ONone;
                 Run tid ONone] σ in
  let m := match mode with
           | StopGracefullyAndWait => StopGracefullyButNotWait
           | _ => mode
           end in
  trace σ' = trace σ
             ++ [EvStopClosed]
             ++ closeListener (lis (srv σ))
             ++ ((λ c, EvConnStop c m) <$> rangeConns (conns (srv σ)))
  ∧ NoDup (rangeConns (conns (srv σ)))
  ∧ (∀ c, c ∈ rangeConns (conns (srv σ)) ↔ registered c (srv σ) = true)
  ∧ goroutines σ' !! tid = Some (GStop mode StopWait)
  ∧ conns (srv σ') = None
  ∧ halted σ' = false
  ∧ (∀ σ1, halted σ1 = false →
       goroutines σ1 !! tid = Some (GStop mode StopClose) →
       stop (srv σ1) = false →
       let σ2 := step (Run tid ONone) σ1 in
       goroutines σ2 !! tid = Some (GStop mode StopSwap)
       ∧ trace σ2 = trace σ1 ++ [EvStopClosed]
       ∧ halted σ2 = false)
  ∧ (∀ σ1, halted σ1 = false →
       goroutines σ1 !! tid = Some (GStop mode StopSwap) →
       let σ2 := step (Run tid ONone) σ1 in
       goroutines σ2 !! tid
         = Some (GStop mode (StopCloseLis (lis (srv σ1)) (conns (srv σ1))))
       ∧ conns (srv σ2) = None
       ∧ trace σ2 = trace σ1)
  ∧ (∀ σ1 L R, halted σ1 = false →
       goroutines σ1 !! tid = Some (GStop mode (StopCloseLis L R)) →
       let σ2 := step (Run tid ONone) σ1 in
       goroutines σ2 !! tid = Some (GStop mode (StopFanout R))
       ∧ trace σ2 = trace σ1 ++ closeListener L)
  ∧ (∀ σ1 R, halted σ1 = false →
       goroutines σ1 !! tid = Some (GStop mode (StopFanout R)) →
       let σ2 := step (Run tid ONone) σ1 in
       goroutines σ2 !! tid = Some (GStop mode StopWait)
       ∧ trace σ2 = trace σ1 ++ ((λ c, EvConnStop c m) <$> rangeConns R))
  ∧ (∀ σ1, gstep tid ONone (GStop mode StopWait) σ1 = None
           ↔ mode = StopGracefullyAndWait ∧ wg (srv σ1) ≠ 0%Z)
  ∧ (∀ σ1 σ2, gstep tid ONone (GStop mode StopWait) σ1 = Some σ2 →
       trace σ2 = trace σ1
                  ++ (if decide (mode = StopGracefullyAndWait) then [EvWgWait] else [])
                  ++ [EvLog LogServerStop]
       ∧ goroutines σ2 = <[tid := GExit]> (goroutines σ1)).
Proof.
  intros Hh Hs Htid σ' m.
  assert (Hm : m = perConnMode mode) by (by destruct mode).
  assert (Hc : step (CallStop mode) σ = go (GStop mode StopClose) σ).
  { unfold step. by rewrite Hh. }
  assert (Hg : goroutines (go (GStop mode StopClose) σ) !! tid
               = Some (GStop mode StopClose)).
  { simpl. subst tid. by apply list_lookup_middle. }
  destruct (Stop_steps tid mode (go (GStop mode StopClose) σ) Hh Hg Hs)
    as (Htr & Hpc & Hnil & Hh').
  subst σ'. rewrite run_cons, Hc.
  split_and!.
  - rewrite Htr, Hm. done.
  - apply rangeConns_NoDup.
  - intros c. apply rangeConns_registered.
  - done.
  - done.
  - done.
  - intros σ1 Hh1 Hg1 Hs1 σ2. subst σ2.
    erewrite step_Run; [| done | done | simpl; rewrite Hs1; reflexivity].
    split_and!; [by eapply goto_lookup | done | done].
  - intros σ1 Hh1 Hg1 σ2. subst σ2.
    erewrite step_Run; [| done | done | reflexivity].
    split_and!; [by eapply goto_lookup | done | done].
  - intros σ1 L R Hh1 Hg1 σ2. subst σ2.
    erewrite step_Run; [| done | done | reflexivity].
    split_and!; [by eapply goto_lookup | done].
  - intros σ1 R Hh1 Hg1 σ2. subst σ2.
    erewrite step_Run; [| done | done | reflexivity].
    split_and!; [by eapply goto_lookup | simpl; by rewrite Hm].
  - intros σ1. simpl. destruct (decide (mode = StopGracefullyAndWait)) as [->|Hne].
    + destruct (wg (srv σ1) =? 0)%Z eqn:Hz.
      * apply Z.eqb_eq in Hz. split; [done|]. by intros [_ ?].
      * apply Z.eqb_neq in Hz. done.
    + split; [done|]. by intros [? _].
  - intros σ1 σ2. simpl. destruct (decide (mode = StopGracefullyAndWait)) as [->|Hne].
    + destruct (wg (srv σ1) =? 0)%Z; [|done]. by intros [= <-].
    + by intros [= <-].
Qed.

Lemma Stop_fanout_modes_witness :
  let σ := run [CallServe; Run 0 ONone; Run 0 (OListen (Some 9) false); Run 0 ONone;
                Run 0 (OAccept (AcceptConn 33)); Run 0 (OAccept (AcceptConn 34));
                Run 1 ONone; Run 1 (ONewConn true); Run 1 ONone;
                Run 2 ONone; Run 2 (ONewConn true); Run 2 ONone]
             (boot (mkServer 5 false 0 None (Some ∅))
                {[ 5 := mkServerOpts ":8080" 1 2 128 ]}) in
  let σ' := run [CallStop StopGracefullyAndWait; Run 3 ONone; Run 3 ONone;
                 Run 3 ONone; Run 3 ONone] σ in
  trace σ' = trace σ
             ++ [EvStopClosed]
             ++ closeListener (lis (srv σ))
             ++ ((λ c, EvConnStop c StopGracefullyButNotWait)
                   <$> rangeConns (conns (srv σ)))
  ∧ (∀ c, c ∈ rangeConns (conns (srv σ)) ↔ registered c (srv σ) = true)
  ∧ registered 0 (srv σ) = true
  ∧ registered 1 (srv σ) = true
  ∧ lis (srv σ) = Some 9
  ∧ goroutines σ' !! 3 = Some (GStop StopGracefullyAndWait StopWait)
  ∧ (gstep 3 ONone (GStop StopGracefullyAndWait StopWait) σ' = None
     ↔ StopGracefullyAndWait = StopGracefullyAndWait ∧ wg (srv σ') ≠ 0%Z).
Proof.
  intros σ σ'.
  assert (Hh : halted σ = false) by (vm_compute; reflexivity).
  assert (Hs : stop (srv σ) = false) by (vm_compute; reflexivity).
  assert (Ht : length (goroutines σ) = 3) by (vm_compute; reflexivity).
  assert (H0 : registered 0 (srv σ) = true) by (vm_compute; reflexivity).
  assert (H1 : registered 1 (srv σ) = true) by (vm_compute; reflexivity).
  assert (Hl : lis (srv σ) = Some 9) by (vm_compute; reflexivity).
  destruct (Stop_fanout_modes 3 StopGracefullyAndWait σ Hh Hs Ht)
    as (Htr & _ & Hreg & Hpc & _ & _ & _ & _ & _ & _ & Hblock & _).
  split_and!;
    [exact Htr | exact Hreg | exact H0 | exact H1 | exact Hl | exact Hpc
     | exact (Hblock σ')].
Defined.

(** ** handleRawConn: the error of NewConn *)

(** C9.  When [handleRawConn] has found the registry not nil and [NewConn]
    then returns an error, the goroutine ends and nothing else changes but
    the record of that call of [NewConn]: the accepted stream is not closed
    (no other event is added to the trace), and the server (its registry and
    its counter among the rest) and the connections are as they were.  This
    holds whatever the other goroutines did between the two steps; when they
    did nothing, the whole call leaves the world as it found it, bar the call
    of [NewConn] and the goroutine's own end. *)
Theorem handleRawConn_NewConn_error (tid : nat) (conn : nat) (σ : World)
    (opts : ServerOpts) :
  halted σ = false →
  goroutines σ !! tid = Some (GHandle conn HandleEntry) →
  is_Some (conns (srv σ)) →
  opts_heap σ !! Opts (srv σ) = Some opts →
  let failed o := EvNewConn (Handler o) (Protocol o) (SendBufLen o) false in
  step (Run tid ONone) σ = goto tid (GHandle conn HandleNewConn) σ
  ∧ (∀ σ1 opts1, halted σ1 = false →
       goroutines σ1 !! tid = Some (GHandle conn HandleNewConn) →
       opts_heap σ1 !! Opts (srv σ1) = Some opts1 →
       let σ2 := step (Run tid (ONewConn false)) σ1 in
       trace σ2 = trace σ1 ++ [failed opts1]
       ∧ srv σ2 = srv σ1 ∧ conn_heap σ2 = conn_heap σ1
       ∧ goroutines σ2 = <[tid := GExit]> (goroutines σ1)
       ∧ halted σ2 = false)
  ∧ run [Run tid ONone; Run tid (ONewConn false)] σ
    = goto tid GExit (emit [failed opts] σ).
Proof.
  intros Hh Hg [m Hm] Ho failed.
  assert (H1 : step (Run tid ONone) σ = goto tid (GHandle conn HandleNewConn) σ).
  { eapply step_Run; [done..|]. simpl. by rewrite Hm. }
  assert (H2 : ∀ σ1 opts1, halted σ1 = false →
       goroutines σ1 !! tid = Some (GHandle conn HandleNewConn) →
       opts_heap σ1 !! Opts (srv σ1) = Some opts1 →
       step (Run tid (ONewConn false)) σ1 = goto tid GExit (emit [failed opts1] σ1)).
  { intros σ1 opts1 Hh1 Hg1 Ho1. eapply step_Run; [done..|]. simpl. by rewrite Ho1. }
  split_and!.
  - done.
  - intros σ1 opts1 Hh1 Hg1 Ho1 σ2. subst σ2. by rewrite (H2 _ opts1).
  - rewrite !run_cons, run_nil, H1, (H2 _ opts); [| done | by eapply goto_lookup | done].
    unfold goto, emit. simpl. by rewrite list_insert_insert_eq.
Qed.

Lemma handleRawConn_NewConn_error_witness :
  let σ := mkWorld (mkServer 5 false 1 (Some 9) (Some ∅))
             {[ 5 := mkServerOpts ":8080" 1 2 128 ]} ∅ 0
             [GServe (ServeAccept 9 0); GHandle 33 HandleEntry]
             [EvListen ":8080"; EvLog (LogListenOn 9)] false in
  run [Run 1 ONone; Run 1 (ONewConn false)] σ
  = goto 1 GExit (emit [EvNewConn 1 2 128 false] σ).
Proof.
  intros σ.
  refine (proj2 (proj2 (handleRawConn_NewConn_error 1 33 σ
                          (mkServerOpts ":8080" 1 2 128) eq_refl eq_refl _ eq_refl))).
  by eexists.
Defined.

(** ** Serve: the listener *)

(** C5, as stated, fails.  [Serve] has no parameter; a listener that the
    caller has put into the server beforehand ([7]) is not the one that is
    bound: [Serve] calls [net.Listen] on the configured address and binds
    what that returns ([9]). *)
Lemma Serve_listens_itself :
  let σ := mkWorld (mkServer 5 false 0 (Some 7) (Some ∅))
             {[ 5 := mkServerOpts ":8080" 1 2 128 ]} ∅ 0
             [GServe ServeEntry] [] false in
  let σ' := run [Run 0 ONone; Run 0 (OListen (Some 9) false); Run 0 ONone] σ in
  lis (srv σ) = Some 7
  ∧ lis (srv σ') = Some 9
  ∧ trace σ' = [EvListen ":8080"; EvLog (LogListenOn 9)]
  ∧ goroutines σ' = [GServe (ServeAccept 9 0)].
Proof. by vm_compute. Qed.

(** C5, amended.  [Serve] takes no listener: it counts itself in, calls
    [net.Listen] on the address [LisAddr] of its options, and when that
    returns a listener it logs it, stores it in [s.lis] and enters the accept
    loop with it, with no delay pending.  When [net.Listen] fails it reports
    the error with [xlog.Fatalf], binds nothing, and never enters the accept
    loop: the process ends there, or the call goes on to its deferred
    exit. *)
Theorem Serve_listens_on_LisAddr (tid : nat) (σ : World) (opts : ServerOpts)
    (l : nat) (fatalExits : bool) :
  halted σ = false →
  goroutines σ !! tid = Some (GServe ServeEntry) →
  opts_heap σ !! Opts (srv σ) = Some opts →
  (let σ' := run [Run tid ONone; Run tid (OListen (Some l) fatalExits);
                  Run tid ONone] σ in
   trace σ' = trace σ ++ [EvListen (LisAddr opts); EvLog (LogListenOn l)]
   ∧ lis (srv σ') = Some l
   ∧ wg (srv σ') = (wg (srv σ) + 1)%Z
   ∧ conns (srv σ') = conns (srv σ) ∧ stop (srv σ') = stop (srv σ)
   ∧ goroutines σ' = <[tid := GServe (ServeAccept l 0)]> (goroutines σ)
   ∧ halted σ' = false)
  ∧ (let σ' := run [Run tid ONone; Run tid (OListen None fatalExits)] σ in
     trace σ' = trace σ ++ [EvListen (LisAddr opts);
                             EvLog (LogListenError (LisAddr opts))]
     ∧ lis (srv σ') = lis (srv σ)
     ∧ halted σ' = fatalExits
     ∧ goroutines σ' !! tid
       = Some (GServe (if fatalExits then ServeListen else ServeDone))).
Proof.
  intros Hh Hg Ho. split.
  - rewrite run_cons.
    erewrite step_Run; [| done | done | reflexivity].
    rewrite run_cons.
    erewrite step_Run; [| done | by eapply goto_lookup | simpl; by rewrite Ho].
    rewrite run_cons.
    erewrite step_Run; [| done | by eapply goto_lookup, goto_lookup | reflexivity].
    rewrite run_nil. simpl. rewrite <- app_assoc.
    by rewrite !list_insert_insert_eq.
  - rewrite run_cons.
    erewrite step_Run; [| done | done | reflexivity].
    rewrite run_cons.
    destruct fatalExits.
    + erewrite step_Run; [| done | by eapply goto_lookup | simpl; by rewrite Ho].
      rewrite run_nil. simpl. rewrite <- app_assoc.
      split_and!; [done..|]. apply list_lookup_insert_eq. by eapply lookup_lt_Some.
    + erewrite step_Run; [| done | by eapply goto_lookup | simpl; by rewrite Ho].
      rewrite run_nil. simpl. rewrite <- app_assoc.
      split_and!; [done..|]. rewrite list_insert_insert_eq.
      apply list_lookup_insert_eq. by eapply lookup_lt_Some.
Qed.

Lemma Serve_listens_on_LisAddr_witness :
  let σ := mkWorld (mkServer 5 false 0 None (Some ∅))
             {[ 5 := mkServerOpts ":8080" 1 2 128 ]} ∅ 0
             [GServe ServeEntry] [] false in
  let σ' := run [Run 0 ONone; Run 0 (OListen (Some 9) true); Run 0 ONone] σ in
  trace σ' = [EvListen ":8080"; EvLog (LogListenOn 9)]
  ∧ lis (srv σ') = Some 9
  ∧ goroutines σ' = [GServe (ServeAccept 9 0)].
Proof.
  intros σ σ'.
  destruct (Serve_listens_on_LisAddr 0 σ (mkServerOpts ":8080" 1 2 128) 9 true
              eq_refl eq_refl eq_refl) as [(Htr & Hl & _ & _ & _ & Hg & _) _].
  split_and!; [exact Htr | exact Hl | exact Hg].
Defined.

(** ** Serve: accept errors *)

(** C7, as stated, fails.  The stop channel is closed while the loop is
    about to accept; [Accept] returns a temporary error; the backoff
    [select] takes the stop case and [Serve] returns: the loop has ended
    after a temporary error, and [Accept] is not called again. *)
Lemma temporary_error_then_stop_ends_loop :
  let σ := mkWorld (mkServer 5 true 1 None None)
             {[ 5 := mkServerOpts ":8080" 1 2 128 ]} ∅ 0
             [GServe (ServeAccept 9 0)] [] false in
  let σ' := run [Run 0 (OAccept (AcceptNetError true)); Run 0 (OTimer false true)] σ in
  goroutines σ' = [GServe ServeDone]
  ∧ ∀ r, step (Run 0 (OAccept r)) σ' = σ'.
Proof. split; [by vm_compute | intros r; by vm_compute]. Qed.

(** C7, amended.  A temporary accept error does not by itself end the
    loop: it leads to the backoff [select] of line 84, which logs nothing.
    With the stop channel open the goroutine waits for the timer and then
    accepts again.  With the stop channel closed and the timer not fired the
    [select] takes the stop case and [Serve] returns without retrying; with
    both cases ready the [select] may take either.  Once the loop has ended
    [Accept] is not called again, and the deferred function runs to the end
    of [Serve].  Any other accept error ends the loop, and the error is
    logged exactly when the stop channel is not closed. *)
Theorem accept_error_handling (tid : nat) (l : nat) (tempDelay : Z)
    (r : AcceptResult) (σ : World) :
  halted σ = false →
  goroutines σ !! tid = Some (GServe (ServeAccept l tempDelay)) →
  (∀ conn, r ≠ AcceptConn conn) →
  (isTemporary r = true →
     goroutines (step (Run tid (OAccept r)) σ) !! tid
       = Some (GServe (ServeBackoff l (nextDelay tempDelay)))
     ∧ ∀ σ1 d fired timerFirst,
         halted σ1 = false →
         goroutines σ1 !! tid = Some (GServe (ServeBackoff l d)) →
         let σ2 := step (Run tid (OTimer fired timerFirst)) σ1 in
         (goroutines σ2 !! tid = Some (GServe ServeDone) → stop (srv σ1) = true)
         ∧ (stop (srv σ1) = false →
              goroutines σ2 !! tid
                = Some (GServe (if fired then ServeAccept l d else ServeBackoff l d)))
         ∧ (stop (srv σ1) = true →
              goroutines σ2 !! tid
                = Some (GServe (if fired && timerFirst then ServeAccept l d
                                else ServeDone)))
         ∧ trace σ2 = trace σ1)
  ∧ (isTemporary r = false →
       let σ' := step (Run tid (OAccept r)) σ in
       goroutines σ' !! tid = Some (GServe ServeDone)
       ∧ trace σ' = trace σ ++ (if stop (srv σ) then [] else [EvLog LogAcceptClosed])
       ∧ (EvLog LogAcceptClosed ∈ drop (length (trace σ)) (trace σ')
          ↔ stop (srv σ) = false))
  ∧ (∀ σ1, goroutines σ1 !! tid = Some (GServe ServeDone) →
       (∀ r' : AcceptResult, step (Run tid (OAccept r')) σ1 = σ1)
       ∧ (∀ fired timerFirst, step (Run tid (OTimer fired timerFirst)) σ1 = σ1)
       ∧ (halted σ1 = false → (0 < wg (srv σ1))%Z →
          goroutines (run [Run tid ONone; Run tid ONone] σ1) !! tid = Some GExit)).
Proof.
  intros Hh Hg Hr.
  assert (Hbackoff : ∀ σ1 d fired timerFirst,
         halted σ1 = false →
         goroutines σ1 !! tid = Some (GServe (ServeBackoff l d)) →
         let σ2 := step (Run tid (OTimer fired timerFirst)) σ1 in
         (goroutines σ2 !! tid = Some (GServe ServeDone) → stop (srv σ1) = true)
         ∧ (stop (srv σ1) = false →
              goroutines σ2 !! tid
                = Some (GServe (if fired then ServeAccept l d else ServeBackoff l d)))
         ∧ (stop (srv σ1) = true →
              goroutines σ2 !! tid
                = Some (GServe (if fired && timerFirst then ServeAccept l d
                                else ServeDone)))
         ∧ trace σ2 = trace σ1).
  { intros σ1 d fired timerFirst Hh1 Hg1 σ2. subst σ2.
    destruct (stop (srv σ1)) eqn:Hs.
    - split; [done|]. split; [done|].
      destruct fired, timerFirst;
        (erewrite step_Run; [| done | done | simpl; rewrite Hs; reflexivity]);
        (split; [intros _; by eapply goto_lookup | done]).
    - destruct fired.
      + erewrite step_Run; [| done | done | simpl; rewrite Hs; reflexivity].
        erewrite goto_lookup by done. done.
      + erewrite step_Run_blocked; [| done | simpl; by rewrite Hs].
        rewrite Hg1. done. }
  assert (Hdone : ∀ σ1, goroutines σ1 !! tid = Some (GServe ServeDone) →
       (∀ r' : AcceptResult, step (Run tid (OAccept r')) σ1 = σ1)
       ∧ (∀ fired timerFirst, step (Run tid (OTimer fired timerFirst)) σ1 = σ1)
       ∧ (halted σ1 = false → (0 < wg (srv σ1))%Z →
          goroutines (run [Run tid ONone; Run tid ONone] σ1) !! tid = Some GExit)).
  { intros σ1 Hg1. split_and!.
    - intros r'. by eapply step_Run_blocked.
    - intros fired timerFirst. by eapply step_Run_blocked.
    - intros Hh1 Hwg.
      assert (Hd : wg_Done σ1 = with_srv (set_wg (wg (srv σ1) - 1) (srv σ1)) σ1).
      { unfold wg_Done. by rewrite (proj2 (Z.ltb_ge _ _)) by lia. }
      rewrite run_cons.
      erewrite step_Run; [| done | done | reflexivity].
      rewrite run_cons, Hd.
      erewrite step_Run; [| done | by eapply goto_lookup | reflexivity].
      rewrite run_nil. by eapply goto_lookup, goto_lookup. }
  destruct r as [conn|[]|]; [by destruct (Hr conn)|..];
    (split; [intros Ht | split; [intros Ht | exact Hdone]]);
    try discriminate Ht.
  - split; [|exact Hbackoff].
    erewrite step_Run; [| done | done | reflexivity]. by eapply goto_lookup.
  - intros σ'. subst σ'.
    erewrite step_Run; [| done | done | reflexivity].
    split_and!; [by eapply goto_lookup | done |].
    simpl. rewrite drop_app_length. destruct (stop (srv σ)).
    + split; [by intros ?%elem_of_nil | done].
    + split; [done | intros _; by apply list_elem_of_singleton].
  - intros σ'. subst σ'.
    erewrite step_Run; [| done | done | reflexivity].
    split_and!; [by eapply goto_lookup | done |].
    simpl. rewrite drop_app_length. destruct (stop (srv σ)).
    + split; [by intros ?%elem_of_nil | done].
    + split; [done | intros _; by apply list_elem_of_singleton].
Qed.

Lemma accept_error_handling_witness :
  let σ := run [CallServe; Run 0 ONone; Run 0 (OListen (Some 9) false); Run 0 ONone;
                CallStop StopImmediately; Run 1 ONone]
             (boot (mkServer 5 false 0 None (Some ∅))
                {[ 5 := mkServerOpts ":8080" 1 2 128 ]}) in
  let σ1 := step (Run 0 (OAccept (AcceptNetError true))) σ in
  let σ2 := step (Run 0 (OTimer false true)) σ1 in
  stop (srv σ1) = true
  ∧ goroutines σ1 !! 0 = Some (GServe (ServeBackoff 9 (nextDelay 0)))
  ∧ goroutines σ2 !! 0 = Some (GServe ServeDone)
  ∧ trace σ2 = trace σ1
  ∧ (∀ r', step (Run 0 (OAccept r')) σ2 = σ2)
  ∧ goroutines (run [Run 0 ONone; Run 0 ONone] σ2) !! 0 = Some GExit.
Proof.
  intros σ σ1 σ2.
  assert (Hh : halted σ = false) by (vm_compute; reflexivity).
  assert (Hg : goroutines σ !! 0 = Some (GServe (ServeAccept 9 0)))
    by (vm_compute; reflexivity).
  assert (Hr : ∀ conn, AcceptNetError true ≠ AcceptConn conn)
    by (intros conn; discriminate).
  assert (Hh1 : halted σ1 = false) by (vm_compute; reflexivity).
  assert (Hs1 : stop (srv σ1) = true) by (vm_compute; reflexivity).
  assert (Hh2 : halted σ2 = false) by (vm_compute; reflexivity).
  assert (Hw2 : (0 < wg (srv σ2))%Z) by (vm_compute; reflexivity).
  destruct (accept_error_handling 0 9 0 (AcceptNetError true) σ Hh Hg Hr)
    as (Htemp & _ & Hdone).
  destruct (Htemp eq_refl) as [Hg1 Hsel].
  destruct (Hsel σ1 (nextDelay 0) false true Hh1 Hg1) as (_ & _ & Hstop & Htr).
  specialize (Hstop Hs1).
  destruct (Hdone σ2 Hstop) as (Hacc & _ & Hexit).
  split_and!; [exact Hs1 | exact Hg1 | exact Hstop | exact Htr | exact Hacc
               | exact (Hexit Hh2 Hw2)].
Defined.

(** ** Serve: backoff *)

Lemma wrap64_small (z : Z) :
  (- 2 ^ 63 ≤ z < 2 ^ 63)%Z → wrap64 z = z.
Proof. intros Hz. unfold wrap64. rewrite Z.mod_small; lia. Qed.

Lemma nextDelay_0 : nextDelay 0 = backoffDelay 0.
Proof. reflexivity. Qed.

Lemma nextDelay_backoffDelay (k : nat) :
  nextDelay (backoffDelay k) = backoffDelay (S k).
Proof.
  unfold nextDelay, backoffDelay.
  rewrite Nat2Z.inj_succ, Z.pow_succ_r by lia.
  assert (Hp : (0 < 2 ^ Z.of_nat k)%Z) by (apply Z.pow_pos_nonneg; lia).
  set (p := (2 ^ Z.of_nat k)%Z) in *.
  assert (Hs : wrap64 (1 * Second) = 1000000000%Z) by reflexivity.
  rewrite Hs. unfold Millisecond.
  destruct (Z.min (5 * p * 1000000) (1000 * 1000000) =? 0)%Z eqn:E.
  { apply Z.eqb_eq in E. lia. }
  rewrite wrap64_small by lia.
  rewrite Z.gtb_ltb.
  destruct (_ <? _)%Z eqn:E'; [apply Z.ltb_lt in E' | apply Z.ltb_ge in E']; lia.
Qed.

Lemma delaysFrom_backoffDelay (n k : nat) :
  delaysFrom (backoffDelay k) n = backoffDelay <$> seq (S k) n.
Proof.
  revert k. induction n as [|n IH]; intros k; [done|].
  simpl. rewrite nextDelay_backoffDelay. f_equal. apply IH.
Qed.

Lemma delaysFrom_0 (n : nat) : delaysFrom 0 n = backoffDelay <$> seq 0 n.
Proof.
  destruct n as [|n]; [done|].
  simpl. rewrite nextDelay_0. f_equal. apply delaysFrom_backoffDelay.
Qed.

Lemma run_temporaryErrors (tid l n : nat) (σ : World) (d : Z) :
  halted σ = false →
  goroutines σ !! tid = Some (GServe (ServeAccept l d)) →
  let σ' := run (temporaryErrors tid n) σ in
  halted σ' = false
  ∧ trace σ' = trace σ ++ retryEvents (delaysFrom d n)
  ∧ goroutines σ' = <[tid := GServe (ServeAccept l (Nat.iter n nextDelay d))]> (goroutines σ)
  ∧ srv σ' = srv σ.
Proof.
  revert σ d. induction n as [|n IH]; intros σ d Hh Hg σ'; subst σ'.
  - simpl. unfold retryEvents. simpl. rewrite app_nil_r.
    by rewrite list_insert_id.
  - simpl temporaryErrors. rewrite run_cons.
    erewrite step_Run; [| done | done | reflexivity].
    rewrite run_cons.
    erewrite step_Run; [| done | by eapply goto_lookup |].
    2: { simpl. destruct (stop (srv σ)); reflexivity. }
    match goal with
    | |- context [run _ ?σ2] =>
        destruct (IH σ2 (nextDelay d)) as (Hh' & Htr & Hgs & Hs);
          [done | by eapply goto_lookup, goto_lookup |]
    end.
    rewrite <- Nat.iter_succ_r in Hgs.
    rewrite Hh', Htr, Hgs, Hs. simpl. rewrite <- app_assoc.
    by rewrite !list_insert_insert_eq.
Qed.

(** C4.  In the accept loop at [Accept], whatever delay is pending:
    - after a successful accept, [n] temporary errors in a row, each waited
      out, are retried after 5ms, 10ms, 20ms, ... doubling up to the cap of
      1000ms ([backoffDelay 0], [backoffDelay 1], ...), and the same when the
      loop has just been entered (no delay pending);
    - a successful accept leaves no delay pending;
    - in the backoff [select], when the stop channel is closed and the timer
      has not fired, [Serve] leaves the loop. *)
Theorem backoff_delays (tid l n : nat) (d0 : Z) (σ : World) :
  halted σ = false →
  goroutines σ !! tid = Some (GServe (ServeAccept l d0)) →
  (∀ conn,
     let σ' := run (Run tid (OAccept (AcceptConn conn)) :: temporaryErrors tid n) σ in
     trace σ' = trace σ ++ retryEvents (backoffDelay <$> seq 0 n)
     ∧ goroutines σ' !! tid
       = Some (GServe (ServeAccept l (match n with 0 => 0 | S k => backoffDelay k end)))
     ∧ halted σ' = false)
  ∧ (d0 = 0%Z →
     let σ' := run (temporaryErrors tid n) σ in
     trace σ' = trace σ ++ retryEvents (backoffDelay <$> seq 0 n)
     ∧ halted σ' = false)
  ∧ (∀ conn, goroutines (step (Run tid (OAccept (AcceptConn conn))) σ) !! tid
             = Some (GServe (ServeAccept l 0)))
  ∧ (∀ σ1 d timerFirst,
       halted σ1 = false →
       goroutines σ1 !! tid = Some (GServe (ServeBackoff l d)) →
       stop (srv σ1) = true →
       goroutines (step (Run tid (OTimer false timerFirst)) σ1) !! tid
       = Some (GServe ServeDone)).
Proof.
  intros Hh Hg.
  assert (Hlt : tid < length (goroutines σ)) by (by eapply lookup_lt_Some).
  assert (Hiter : ∀ k, Nat.iter (S k) nextDelay 0%Z = backoffDelay k).
  { induction k as [|k IHk]; [done|].
    rewrite <- nextDelay_backoffDelay, <- IHk. done. }
  split_and!.
  - intros conn σ'. subst σ'. rewrite run_cons.
    erewrite step_Run; [| done | done | reflexivity].
    edestruct (run_temporaryErrors tid l n
                 (go (GHandle conn HandleEntry) (goto tid (GServe (ServeAccept l 0)) σ)))
      as (Hh' & Htr & Hgs & Hs); [done | |].
    { simpl. rewrite lookup_app_l by (by rewrite length_insert).
      by apply list_lookup_insert_eq. }
    rewrite Hh', Htr, Hgs, delaysFrom_0. split_and!; [done| |done].
    simpl. rewrite list_lookup_insert_eq.
    + f_equal. f_equal. f_equal. destruct n as [|k]; [done|]. apply Hiter.
    + rewrite length_app, length_insert. lia.
  - intros ->. simpl.
    destruct (run_temporaryErrors tid l n σ 0%Z Hh Hg) as (Hh' & Htr & _).
    by rewrite Hh', Htr, delaysFrom_0.
  - intros conn. erewrite step_Run; [| done | done | reflexivity].
    simpl. rewrite lookup_app_l by (by rewrite length_insert).
    by apply list_lookup_insert_eq.
  - intros σ1 d timerFirst Hh1 Hg1 Hs.
    erewrite step_Run; [| done | done | simpl; rewrite Hs; reflexivity].
    by eapply goto_lookup.
Qed.

(** The first delays, in nanoseconds. *)
Example backoffDelay_values :
  backoffDelay <$> seq 0 10
  = [5000000; 10000000; 20000000; 40000000; 80000000; 160000000; 320000000;
     640000000; 1000000000; 1000000000]%Z.
Proof. reflexivity. Qed.

Lemma backoff_delays_witness :
  let σ := mkWorld (mkServer 5 false 1 (Some 9) (Some ∅))
             {[ 5 := mkServerOpts ":8080" 1 2 128 ]} ∅ 0
             [GServe (ServeAccept 9 0)] [] false in
  let σ' := run (temporaryErrors 0 3) σ in
  trace σ' = [EvLog (LogAcceptRetry 5000000); EvAfter 5000000;
              EvLog (LogAcceptRetry 10000000); EvAfter 10000000;
              EvLog (LogAcceptRetry 20000000); EvAfter 20000000]
  ∧ halted σ' = false.
Proof.
  intros σ σ'.
  destruct (backoff_delays 0 9 3 0 σ eq_refl eq_refl) as (_ & H & _).
  exact (H eq_refl).
Defined.

(** ** Interleavings *)

(** Case analysis on a step: the label, the goroutine that moves, its
    program point and the oracle, and then every test that the step makes. *)
Ltac step_cases a σ :=
  unfold step;
  destruct (halted σ) eqn:?;
    [ | destruct a as [|?mode|?tid ?o];
        [ | | destruct (goroutines σ !! tid) as [[?pc|?conn ?pc|?mode ?pc|]|] eqn:?;
              [ destruct pc, o | destruct pc, o | destruct pc, o | | ] ] ];
  unfold gstep, Serve_step, handleRawConn_step, Stop_step, addConn, removeConn,
    registered, closeListener, wg_Done, wg_Add;
  simpl;
  repeat case_match; simplify_eq/=.

(** Once the registry is nil it is nil. *)
Lemma step_conns_nil (a : Label) (σ : World) :
  conns (srv σ) = None → conns (srv (step a σ)) = None.
Proof. intros Hnil. step_cases a σ; done. Qed.

Lemma run_conns_nil (sched : list Label) (σ : World) :
  conns (srv σ) = None → conns (srv (run sched σ)) = None.
Proof.
  revert σ. induction sched as [|a sched IH]; intros σ Hnil; [done|].
  rewrite run_cons. by apply IH, step_conns_nil.
Qed.

(** A step only adds to the trace; with the registry nil it adds no
    successful [addConn] and no [removeConn] that deleted an entry. *)
Lemma step_trace (a : Label) (σ : World) :
  trace (step a σ) = trace σ ++ step_events a σ
  ∧ (conns (srv σ) = None →
     ∀ c, (EvAddConn c true ∉ step_events a σ)
          ∧ (EvRemoveConn c true ∉ step_events a σ)).
Proof.
  assert (H : ∃ evs, trace (step a σ) = trace σ ++ evs
    ∧ (conns (srv σ) = None →
       ∀ c, (EvAddConn c true ∉ evs) ∧ (EvRemoveConn c true ∉ evs))).
  { step_cases a σ; rewrite <- ?app_assoc;
      (first [ eexists; split; [reflexivity|]
             | exists []; split; [by rewrite app_nil_r|] ]);
      intros Hnil ?; simplify_eq/=;
      rewrite ?list_elem_of_fmap, ?elem_of_cons, ?elem_of_nil; naive_solver. }
  destruct H as (evs & Htr & Hevs). unfold step_events.
  rewrite Htr, drop_app_length. done.
Qed.

Lemma run_trace (sched : list Label) (σ : World) :
  ∃ evs, trace (run sched σ) = trace σ ++ evs
    ∧ (conns (srv σ) = None →
       ∀ c, (EvAddConn c true ∉ evs) ∧ (EvRemoveConn c true ∉ evs)).
Proof.
  revert σ. induction sched as [|a sched IH]; intros σ.
  - exists []. split; [by rewrite app_nil_r|]. intros _ c. split; apply not_elem_of_nil.
  - rewrite run_cons. destruct (IH (step a σ)) as (evs & Htr & Hevs).
    destruct (step_trace a σ) as [Hst Hsev].
    exists (step_events a σ ++ evs). split.
    + by rewrite Htr, Hst, <- app_assoc.
    + intros Hnil c. rewrite !elem_of_app.
      specialize (Hsev Hnil c). specialize (Hevs (step_conns_nil a σ Hnil) c).
      tauto.
Qed.

Lemma removeCalls_app (c : nat) (tr1 tr2 : list Event) :
  removeCalls c (tr1 ++ tr2) = removeCalls c tr1 + removeCalls c tr2.
Proof. unfold removeCalls. by rewrite List.filter_app, length_app. Qed.

Lemma stopCloses_app (tr1 tr2 : list Event) :
  stopCloses (tr1 ++ tr2) = stopCloses tr1 + stopCloses tr2.
Proof. unfold stopCloses. by rewrite List.filter_app, length_app. Qed.

Lemma removeCalls_quiet (c : nat) (evs : list Event) :
  Forall (λ e, quiet e = true) evs → removeCalls c evs = 0.
Proof.
  unfold removeCalls. induction 1 as [|e evs He _ IH]; [done|].
  simpl. by destruct e.
Qed.

Lemma stopCloses_fmap_ConnStop (m : StopMode) (cs : list nat) :
  stopCloses ((λ c, EvConnStop c m) <$> cs) = 0.
Proof. unfold stopCloses. by induction cs. Qed.

Lemma quiet_not_add (c : nat) (ok : bool) (evs : list Event) :
  Forall (λ e, quiet e = true) evs → EvAddConn c ok ∉ evs.
Proof. intros Hq Hin. by eapply Forall_forall in Hq; [|exact Hin]. Qed.

(** A step that allocates nothing and in which no call of [handleRawConn]
    passes [addConn] or [removeConn] keeps the invariant. *)
Lemma Inv_frame (σ σ' : World) (evs : list Event) :
  Inv σ →
  next_conn σ' = next_conn σ →
  conn_heap σ' = conn_heap σ →
  trace σ' = trace σ ++ evs →
  Forall (λ e, quiet e = true) evs →
  (∀ tid conn pc c,
     goroutines σ' !! tid = Some (GHandle conn pc) → conn_of pc = Some c →
     ∃ pc0, goroutines σ !! tid = Some (GHandle conn pc0) ∧ conn_of pc0 = Some c
            ∧ (pc = HandleAddConn c → pc0 = HandleAddConn c)
            ∧ (pc0 = HandleWgDone c → pc = HandleWgDone c)) →
  Inv σ'.
Proof.
  intros [Hlt Hraw Huniq Hadd Hrem] Hn Hh Htr Hq Hg. split.
  - intros tid conn pc c Hl Hc. rewrite Hn.
    destruct (Hg _ _ _ _ Hl Hc) as (pc0 & Hl0 & Hc0 & _). eauto.
  - intros tid conn pc c Hl Hc. rewrite Hh.
    destruct (Hg _ _ _ _ Hl Hc) as (pc0 & Hl0 & Hc0 & _). eauto.
  - intros tid1 tid2 conn1 conn2 pc1 pc2 c Hl1 Hc1 Hl2 Hc2.
    destruct (Hg _ _ _ _ Hl1 Hc1) as (pc1' & Hl1' & Hc1' & _).
    destruct (Hg _ _ _ _ Hl2 Hc2) as (pc2' & Hl2' & Hc2' & _). eauto.
  - intros c ok. rewrite Htr, elem_of_app. intros [Hin|Hin].
    2: { by destruct (quiet_not_add c ok evs Hq). }
    destruct (Hadd c ok Hin) as [Hc Hno]. rewrite Hn. split; [done|].
    intros tid conn Hl.
    destruct (Hg _ _ _ _ Hl eq_refl) as (pc0 & Hl0 & _ & Hpc & _).
    rewrite (Hpc eq_refl) in Hl0. by eapply Hno.
  - intros c. rewrite Htr, removeCalls_app, (removeCalls_quiet c evs Hq), Nat.add_0_r.
    destruct (Hrem c) as [Hle Hpos]. split; [done|].
    intros Hne. destruct (Hpos Hne) as [Hc Hdone]. rewrite Hn. split; [done|].
    intros tid conn pc Hl Hpc.
    destruct (Hg _ _ _ _ Hl Hpc) as (pc0 & Hl0 & Hc0 & _ & Hd). eauto.
Qed.

(** Where a goroutine found after a step was before it. *)
Ltac lookup_cases H :=
  repeat match type of H with
  | (_ ++ [_]) !! _ = Some _ =>
      apply lookup_app_Some in H as [H | [? H]];
        [| apply list_lookup_singleton_Some in H as [? ?]; simplify_eq/=]
  | <[_ := _]> _ !! _ = Some _ =>
      apply list_lookup_insert_Some in H as [(? & ? & ?) | (? & H)]; simplify_eq/=
  end.

Ltac frame_step σ :=
  eapply (Inv_frame σ);
    [ assumption | reflexivity | reflexivity
    | simpl; rewrite <- ?app_assoc;
      first [ reflexivity | symmetry; apply app_nil_r ]
    | first [ by repeat constructor
            | apply Forall_fmap, Forall_forall; by intros ]
    | let Hl := fresh "Hl" in
      let Hc := fresh "Hc" in
      intros ? ? ? ? Hl Hc; simpl in Hl; lookup_cases Hl;
      try discriminate;
      eexists; split_and!; [eassumption | try eassumption; try done | ..];
      intros; simplify_eq/=; try done ].


(** A connection just made is new to the registry's history. *)
Lemma Inv_NewConn (σ σ' : World) (tid : nat) (conn : nat) (evs : list Event) :
  Inv σ →
  next_conn σ' = S (next_conn σ) →
  conn_heap σ' = <[next_conn σ := mkConn (Some conn)]> (conn_heap σ) →
  trace σ' = trace σ ++ evs →
  Forall (λ e, quiet e = true) evs →
  goroutines σ' = <[tid := GHandle conn (HandleAddConn (next_conn σ))]> (goroutines σ) →
  Inv σ'.
Proof.
  intros [Hlt Hraw Huniq Hadd Hrem] Hn Hh Htr Hq Hgs.
  split; rewrite ?Hn, ?Hh, ?Hgs, ?Htr.
  - intros tid' conn' pc c Hl Hc. lookup_cases Hl; [lia|].
    specialize (Hlt _ _ _ _ Hl Hc). lia.
  - intros tid' conn' pc c Hl Hc. lookup_cases Hl.
    + by rewrite lookup_insert_eq.
    + specialize (Hlt _ _ _ _ Hl Hc). rewrite lookup_insert_ne by lia. eauto.
  - intros tid1 tid2 conn1 conn2 pc1 pc2 c Hl1 Hc1 Hl2 Hc2.
    lookup_cases Hl1; lookup_cases Hl2; try done.
    + specialize (Hlt _ _ _ _ Hl2 Hc2). lia.
    + specialize (Hlt _ _ _ _ Hl1 Hc1). lia.
    + eauto.
  - intros c ok. rewrite elem_of_app. intros [Hin|Hin].
    2: { by destruct (quiet_not_add c ok evs Hq). }
    destruct (Hadd c ok Hin) as [Hc Hno]. split; [lia|].
    intros tid' conn' Hl. lookup_cases Hl; [lia|]. by eapply Hno.
  - intros c. rewrite removeCalls_app, (removeCalls_quiet c evs Hq), Nat.add_0_r.
    destruct (Hrem c) as [Hle Hpos]. split; [done|].
    intros Hne. destruct (Hpos Hne) as [Hc Hdone]. split; [lia|].
    intros tid' conn' pc Hl Hpc. lookup_cases Hl; [lia|]. eauto.
Qed.

(** The call of [addConn] by the goroutine that holds the connection. *)
Lemma Inv_addConn (σ σ' : World) (tid conn c : nat) (ok : bool)
    (evs : list Event) (g' : Goroutine) :
  Inv σ →
  goroutines σ !! tid = Some (GHandle conn (HandleAddConn c)) →
  next_conn σ' = next_conn σ →
  conn_heap σ' = conn_heap σ →
  trace σ' = trace σ ++ EvAddConn c ok :: evs →
  Forall (λ e, quiet e = true) evs →
  goroutines σ' = <[tid := g']> (goroutines σ) →
  g' = GExit ∨ g' = GHandle conn (HandleWgAdd c) →
  Inv σ'.
Proof.
  intros [Hlt Hraw Huniq Hadd Hrem] Hg Hn Hh Htr Hq Hgs Hg'.
  assert (Hold : ∀ tid' conn' pc c',
    goroutines σ' !! tid' = Some (GHandle conn' pc) → conn_of pc = Some c' →
    (tid' = tid ∧ conn' = conn ∧ pc = HandleWgAdd c ∧ c' = c)
    ∨ (tid' ≠ tid ∧ goroutines σ !! tid' = Some (GHandle conn' pc))).
  { intros tid' conn' pc c' Hl Hc. rewrite Hgs in Hl. lookup_cases Hl; [|by right].
    destruct Hg' as [?|?]; simplify_eq/=. by left. }
  split.
  - intros tid' conn' pc c' Hl Hc. rewrite Hn.
    destruct (Hold _ _ _ _ Hl Hc) as [(-> & -> & -> & ->)|[? Hl0]]; eauto.
  - intros tid' conn' pc c' Hl Hc. rewrite Hh.
    destruct (Hold _ _ _ _ Hl Hc) as [(-> & -> & -> & ->)|[? Hl0]]; eauto.
  - intros tid1 tid2 conn1 conn2 pc1 pc2 c' Hl1 Hc1 Hl2 Hc2.
    destruct (Hold _ _ _ _ Hl1 Hc1) as [(-> & -> & -> & ->)|[? Hl1']];
      destruct (Hold _ _ _ _ Hl2 Hc2) as [(-> & -> & -> & ?)|[? Hl2']];
      simplify_eq; eauto.
  - intros c' ok'. rewrite Htr, elem_of_app, elem_of_cons, Hn.
    intros [Hin|[Heq|Hin]].
    + destruct (Hadd c' ok' Hin) as [Hc Hno]. split; [done|].
      intros tid' conn' Hl.
      destruct (Hold _ _ _ _ Hl eq_refl) as [(_ & _ & ? & _)|[? Hl0]]; [done|].
      by eapply Hno.
    + simplify_eq. split; [eauto|].
      intros tid' conn' Hl.
      destruct (Hold _ _ _ _ Hl eq_refl) as [(_ & _ & ? & _)|[? Hl0]]; [done|].
      by destruct (Huniq _ _ _ _ _ _ _ Hg eq_refl Hl0 eq_refl).
    + by destruct (quiet_not_add c' ok' evs Hq).
  - intros c'. rewrite Htr, removeCalls_app.
    change (removeCalls c' (EvAddConn c ok :: evs)) with (removeCalls c' evs).
    rewrite (removeCalls_quiet c' evs Hq), Nat.add_0_r, Hn.
    destruct (Hrem c') as [Hle Hpos]. split; [done|].
    intros Hne. destruct (Hpos Hne) as [Hc Hdone]. split; [done|].
    intros tid' conn' pc Hl Hpc.
    destruct (Hold _ _ _ _ Hl Hpc) as [(-> & -> & -> & ->)|[? Hl0]]; [|eauto].
    by specialize (Hdone _ _ _ Hg eq_refl).
Qed.

(** The call of [removeConn] by the goroutine that holds the connection. *)
Lemma Inv_removeConn (σ σ' : World) (tid conn c : nat) (deleted : bool) :
  Inv σ →
  goroutines σ !! tid = Some (GHandle conn (HandleRemoveConn c)) →
  next_conn σ' = next_conn σ →
  conn_heap σ' = conn_heap σ →
  trace σ' = trace σ ++ [EvRemoveConn c deleted] →
  goroutines σ' = <[tid := GHandle conn (HandleWgDone c)]> (goroutines σ) →
  Inv σ'.
Proof.
  intros [Hlt Hraw Huniq Hadd Hrem] Hg Hn Hh Htr Hgs.
  assert (Hold : ∀ tid' conn' pc c',
    goroutines σ' !! tid' = Some (GHandle conn' pc) → conn_of pc = Some c' →
    (tid' = tid ∧ conn' = conn ∧ pc = HandleWgDone c ∧ c' = c)
    ∨ (tid' ≠ tid ∧ goroutines σ !! tid' = Some (GHandle conn' pc))).
  { intros tid' conn' pc c' Hl Hc. rewrite Hgs in Hl. lookup_cases Hl; [by left|by right]. }
  assert (Hzero : removeCalls c (trace σ) = 0).
  { destruct (Hrem c) as [_ Hpos].
    destruct (decide (removeCalls c (trace σ) = 0)) as [|Hne]; [done|].
    destruct (Hpos Hne) as [_ Hdone]. by specialize (Hdone _ _ _ Hg eq_refl). }
  split.
  - intros tid' conn' pc c' Hl Hc. rewrite Hn.
    destruct (Hold _ _ _ _ Hl Hc) as [(-> & -> & -> & ->)|[? Hl0]]; eauto.
  - intros tid' conn' pc c' Hl Hc. rewrite Hh.
    destruct (Hold _ _ _ _ Hl Hc) as [(-> & -> & -> & ->)|[? Hl0]]; eauto.
  - intros tid1 tid2 conn1 conn2 pc1 pc2 c' Hl1 Hc1 Hl2 Hc2.
    destruct (Hold _ _ _ _ Hl1 Hc1) as [(-> & -> & -> & ->)|[? Hl1']];
      destruct (Hold _ _ _ _ Hl2 Hc2) as [(-> & -> & -> & ?)|[? Hl2']];
      simplify_eq; eauto.
  - intros c' ok'. rewrite Htr, elem_of_app, list_elem_of_singleton, Hn.
    intros [Hin|?]; [|done].
    destruct (Hadd c' ok' Hin) as [Hc Hno]. split; [done|].
    intros tid' conn' Hl.
    destruct (Hold _ _ _ _ Hl eq_refl) as [(_ & _ & ? & _)|[? Hl0]]; [done|].
    by eapply Hno.
  - intros c'. rewrite Htr, removeCalls_app, Hn. unfold removeCalls at 2 4. simpl.
    destruct (Hrem c') as [Hle Hpos].
    destruct (decide (c = c')) as [<-|Hne].
    + rewrite bool_decide_true by done. simpl. rewrite Hzero. split; [done|].
      intros _. split; [eauto|].
      intros tid' conn' pc Hl Hpc.
      destruct (Hold _ _ _ _ Hl Hpc) as [(-> & -> & -> & ?)|[? Hl0]]; [done|].
      by destruct (Huniq _ _ _ _ _ _ _ Hg eq_refl Hl0 Hpc).
    + rewrite bool_decide_false by done. simpl. rewrite Nat.add_0_r.
      split; [done|].
      intros Hpos'. destruct (Hpos Hpos') as [Hc Hdone]. split; [done|].
      intros tid' conn' pc Hl Hpc.
      destruct (Hold _ _ _ _ Hl Hpc) as [(-> & -> & -> & ?)|[? Hl0]]; [done|eauto].
Qed.

Lemma Inv_step (a : Label) (σ : World) : Inv σ → Inv (step a σ).
Proof.
  intros HI. step_cases a σ; try assumption; try (frame_step σ).
  - eapply (Inv_NewConn σ); eauto.
  - eapply (Inv_addConn σ _ _ _ _ true []); eauto.
  - eapply (Inv_addConn σ _ _ _ _ false [EvConnStop _ _]); eauto.
    simpl. by rewrite <- app_assoc.
  - eapply (Inv_removeConn σ); eauto.
  - eapply (Inv_removeConn σ); eauto.
Qed.

Lemma Inv_run (sched : list Label) (σ : World) : Inv σ → Inv (run sched σ).
Proof.
  revert σ. induction sched as [|a sched IH]; intros σ HI; [done|].
  rewrite run_cons. by apply IH, Inv_step.
Qed.

Lemma Inv_boot (s : Server) (h : gmap nat ServerOpts) : Inv (boot s h).
Proof.
  split; simpl; try done.
  - intros c ok Hin. by apply elem_of_nil in Hin.
  - intros c. split; [unfold removeCalls; simpl; lia | done].
Qed.

(** The stop channel has been closed once when it is closed, and never
    when it is open. *)
Lemma step_stopCloses (a : Label) (σ : World) :
  stopCloses (trace σ) = (if stop (srv σ) then 1 else 0) →
  stopCloses (trace (step a σ)) = (if stop (srv (step a σ)) then 1 else 0).
Proof.
  intros H. destruct (stop (srv σ)) eqn:Hs;
    step_cases a σ;
    rewrite ?stopCloses_app, ?stopCloses_fmap_ConnStop; simpl;
    rewrite ?Hs, ?Nat.add_0_r; try done; try congruence.
  unfold stopCloses in *. simpl. lia.
Qed.

Lemma run_stopCloses (sched : list Label) (σ : World) :
  stopCloses (trace σ) = (if stop (srv σ) then 1 else 0) →
  stopCloses (trace (run sched σ)) = (if stop (srv (run sched σ)) then 1 else 0).
Proof.
  revert σ. induction sched as [|a sched IH]; intros σ H; [done|].
  rewrite run_cons. by apply IH, step_stopCloses.
Qed.

(** ** Stop, more than once *)

(** C1, as stated, fails.  On a server fresh from [NewServer] a first
    [Stop] runs to its end; the second [Stop] panics on its first statement,
    [close(s.stop)] of a closed channel, and the process ends. *)
Lemma second_Stop_panics :
  ∃ s h', NewServer 5 {[ 5 := mkServerOpts ":8080" 1 2 0 ]} = Some (s, h')
    ∧ let σ1 := run [CallStop StopImmediately; Run 0 ONone; Run 0 ONone;
                     Run 0 ONone; Run 0 ONone; Run 0 ONone] (boot s h') in
      let σ2 := run [CallStop StopImmediately; Run 1 ONone] σ1 in
      goroutines σ1 = [GExit] ∧ halted σ1 = false ∧ stop (srv σ1) = true
      ∧ halted σ2 = true.
Proof. eexists _, _. split; [reflexivity|]. by vm_compute. Qed.

(** C1, amended.  [Stop] is not idempotent.  In every interleaving from a
    fresh server the stop channel is closed at most once, and exactly once
    when it is closed.  A [Stop] that finds the channel open closes it and
    goes on to its critical section, which leaves listener and registry nil;
    a [Stop] that finds the channel closed panics: the process ends, and
    nothing else changes. *)
Theorem Stop_closes_once (opts : nat) (h h' : gmap nat ServerOpts) (s : Server)
    (sched : list Label) :
  NewServer opts h = Some (s, h') →
  let σ := run sched (boot s h') in
  stopCloses (trace σ) ≤ 1
  ∧ stopCloses (trace σ) = (if stop (srv σ) then 1 else 0)
  ∧ (∀ tid mode,
       halted σ = false →
       goroutines σ !! tid = Some (GStop mode StopClose) →
       let σ' := step (Run tid ONone) σ in
       if stop (srv σ) then σ' = halt σ
       else halted σ' = false ∧ stop (srv σ') = true
            ∧ trace σ' = trace σ ++ [EvStopClosed]
            ∧ goroutines σ' = <[tid := GStop mode StopSwap]> (goroutines σ))
  ∧ (∀ tid mode,
       halted σ = false →
       goroutines σ !! tid = Some (GStop mode StopSwap) →
       let σ' := step (Run tid ONone) σ in
       lis (srv σ') = None ∧ conns (srv σ') = None ∧ stop (srv σ') = stop (srv σ)
       ∧ halted σ' = false).
Proof.
  intros HN σ.
  assert (Hs0 : stop s = false).
  { unfold NewServer in HN. repeat case_match; by simplify_eq/=. }
  assert (Hc : stopCloses (trace σ) = (if stop (srv σ) then 1 else 0)).
  { apply run_stopCloses. simpl. by rewrite Hs0. }
  split_and!.
  - rewrite Hc. destruct (stop (srv σ)); lia.
  - done.
  - intros tid mode Hh Hg σ'. subst σ'. destruct (stop (srv σ)) eqn:Hs.
    + eapply step_Run; [done..|]. simpl. by rewrite Hs.
    + erewrite step_Run; [| done | done | simpl; rewrite Hs; reflexivity]. done.
  - intros tid mode Hh Hg σ'. subst σ'.
    erewrite step_Run; [| done | done | reflexivity]. done.
Qed.

Lemma Stop_closes_once_witness :
  let σ := run [CallStop StopGracefullyAndWait; CallStop StopImmediately;
                Run 1 ONone; Run 0 ONone]
             (boot (mkServer 5 false 0 None (Some ∅))
                {[ 5 := mkServerOpts ":8080" 1 2 128 ]}) in
  stopCloses (trace σ) ≤ 1
  ∧ stopCloses (trace σ) = (if stop (srv σ) then 1 else 0).
Proof.
  intros σ.
  assert (HN : NewServer 5 {[ 5 := mkServerOpts ":8080" 1 2 128 ]}
               = Some (mkServer 5 false 0 None (Some ∅),
                       {[ 5 := mkServerOpts ":8080" 1 2 128 ]})) by reflexivity.
  destruct (Stop_closes_once 5 _ _ _
              [CallStop StopGracefullyAndWait; CallStop StopImmediately;
               Run 1 ONone; Run 0 ONone] HN) as (H1 & H2 & _).
  split; [exact H1 | exact H2].
Defined.

(** ** The registry after Stop *)

(** C2.  In every interleaving from a fresh server: once the registry is
    nil, it is nil after any further steps; there every [addConn] returns
    false and every [removeConn] changes nothing; the further steps record no
    [addConn] that succeeded and no [removeConn] that deleted an entry; and,
    nil registry or not, [removeConn] is called at most once on each
    connection. *)
Theorem registry_nil_is_final (opts : nat) (h h' : gmap nat ServerOpts) (s : Server)
    (sched1 sched2 : list Label) :
  NewServer opts h = Some (s, h') →
  let σ1 := run sched1 (boot s h') in
  let σ2 := run sched2 σ1 in
  conns (srv σ1) = None →
  conns (srv σ2) = None
  ∧ (∀ c, addConn c (srv σ2) = (srv σ2, false))
  ∧ (∀ c, removeConn c (srv σ2) = srv σ2)
  ∧ (∃ evs, trace σ2 = trace σ1 ++ evs
       ∧ ∀ c, (EvAddConn c true ∉ evs) ∧ (EvRemoveConn c true ∉ evs))
  ∧ (∀ c, removeCalls c (trace σ2) ≤ 1).
Proof.
  intros HN σ1 σ2 Hnil.
  assert (Hnil2 : conns (srv σ2) = None) by (by apply run_conns_nil).
  split_and!.
  - done.
  - intros c. unfold addConn. by rewrite Hnil2.
  - intros c. unfold removeConn. by rewrite Hnil2.
  - destruct (run_trace sched2 σ1) as (evs & Htr & Hevs). eauto.
  - intros c. eapply inv_remove, Inv_run, Inv_run, Inv_boot.
Qed.

Lemma registry_nil_is_final_witness :
  let σ1 := run [CallServe; Run 0 ONone; Run 0 (OListen (Some 9) false); Run 0 ONone;
                 Run 0 (OAccept (AcceptConn 33)); Run 1 ONone; Run 1 (ONewConn true);
                 CallStop StopImmediately; Run 2 ONone; Run 2 ONone]
              (boot (mkServer 5 false 0 None (Some ∅))
                 {[ 5 := mkServerOpts ":8080" 1 2 128 ]}) in
  let σ2 := run [Run 1 ONone; Run 0 (OAccept (AcceptConn 34)); Run 3 ONone] σ1 in
  conns (srv σ2) = None
  ∧ (∃ evs, trace σ2 = trace σ1 ++ evs
       ∧ ∀ c, (EvAddConn c true ∉ evs) ∧ (EvRemoveConn c true ∉ evs)).
Proof.
  intros σ1 σ2.
  assert (HN : NewServer 5 {[ 5 := mkServerOpts ":8080" 1 2 128 ]}
               = Some (mkServer 5 false 0 None (Some ∅),
                       {[ 5 := mkServerOpts ":8080" 1 2 128 ]})) by reflexivity.
  destruct (registry_nil_is_final 5 _ _ _
              [CallServe; Run 0 ONone; Run 0 (OListen (Some 9) false); Run 0 ONone;
               Run 0 (OAccept (AcceptConn 33)); Run 1 ONone; Run 1 (ONewConn true);
               CallStop StopImmediately; Run 2 ONone; Run 2 ONone]
              [Run 1 ONone; Run 0 (OAccept (AcceptConn 34)); Run 3 ONone]
              HN eq_refl) as (H1 & _ & _ & H2 & _).
  split; [exact H1 | exact H2].
Defined.

(** ** Streams accepted after Stop *)

(** C6.  In every interleaving from a fresh server, when the registry is
    nil:
    - a call of [handleRawConn] at its entry closes the stream it was given
      and returns, with the server as it was;
    - a call of [handleRawConn] at [addConn] has the stream it was given in
      the [RawConn] of its connection; [addConn] fails, the call stops that
      connection with [StopImmediately] and returns, with the server as it
      was; and no [addConn] of that connection has succeeded before or
      succeeds in any continuation;
    - the registry stays nil in every continuation. *)
Theorem late_stream_is_closed (opts : nat) (h h' : gmap nat ServerOpts) (s : Server)
    (sched : list Label) (tid conn : nat) :
  NewServer opts h = Some (s, h') →
  let σ := run sched (boot s h') in
  halted σ = false →
  conns (srv σ) = None →
  (goroutines σ !! tid = Some (GHandle conn HandleEntry) →
     let σ' := step (Run tid ONone) σ in
     trace σ' = trace σ ++ [EvRawClose conn]
     ∧ goroutines σ' = <[tid := GExit]> (goroutines σ)
     ∧ srv σ' = srv σ)
  ∧ (∀ c, goroutines σ !! tid = Some (GHandle conn (HandleAddConn c)) →
       let σ' := step (Run tid ONone) σ in
       conn_heap σ !! c = Some (mkConn (Some conn))
       ∧ trace σ' = trace σ ++ [EvAddConn c false; EvConnStop c StopImmediately]
       ∧ goroutines σ' = <[tid := GExit]> (goroutines σ)
       ∧ srv σ' = srv σ
       ∧ ∀ sched', EvAddConn c true ∉ trace (run sched' σ))
  ∧ (∀ sched', conns (srv (run sched' σ)) = None).
Proof.
  intros HN σ Hh Hnil.
  assert (HI : Inv σ) by apply Inv_run, Inv_boot.
  split_and!.
  - intros Hg σ'. subst σ'.
    erewrite step_Run; [| done | done | simpl; rewrite Hnil; reflexivity].
    done.
  - intros c Hg σ'. subst σ'.
    erewrite step_Run; [| done | done |].
    2: { simpl. unfold addConn. rewrite Hnil. reflexivity. }
    split_and!.
    + by eapply inv_raw.
    + simpl. by rewrite <- app_assoc.
    + done.
    + done.
    + intros sched' Hin.
      destruct (run_trace sched' σ) as (evs & Htr & Hevs).
      rewrite Htr in Hin. apply elem_of_app in Hin as [Hin|Hin].
      * destruct (inv_add σ HI c true Hin) as [_ Hno]. by eapply Hno.
      * by destruct (Hevs Hnil c).
  - intros sched'. by apply run_conns_nil.
Qed.

Lemma late_stream_is_closed_witness :
  let σ := run [CallServe; Run 0 ONone; Run 0 (OListen (Some 9) false); Run 0 ONone;
                Run 0 (OAccept (AcceptConn 33)); Run 1 ONone; Run 1 (ONewConn true);
                Run 0 (OAccept (AcceptConn 34));
                CallStop StopImmediately; Run 3 ONone; Run 3 ONone]
             (boot (mkServer 5 false 0 None (Some ∅))
                {[ 5 := mkServerOpts ":8080" 1 2 128 ]}) in
  trace (step (Run 2 ONone) σ) = trace σ ++ [EvRawClose 34]
  ∧ trace (step (Run 1 ONone) σ)
    = trace σ ++ [EvAddConn 0 false; EvConnStop 0 StopImmediately]
  ∧ conn_heap σ !! 0 = Some (mkConn (Some 33)).
Proof.
  intros σ.
  assert (HN : NewServer 5 {[ 5 := mkServerOpts ":8080" 1 2 128 ]}
               = Some (mkServer 5 false 0 None (Some ∅),
                       {[ 5 := mkServerOpts ":8080" 1 2 128 ]})) by reflexivity.
  split_and!.
  - destruct (late_stream_is_closed 5 _ _ _
                [CallServe; Run 0 ONone; Run 0 (OListen (Some 9) false); Run 0 ONone;
                 Run 0 (OAccept (AcceptConn 33)); Run 1 ONone; Run 1 (ONewConn true);
                 Run 0 (OAccept (AcceptConn 34));
                 CallStop StopImmediately; Run 3 ONone; Run 3 ONone]
                2 34 HN eq_refl eq_refl) as (H1 & _).
    exact (proj1 (H1 eq_refl)).
  - destruct (late_stream_is_closed 5 _ _ _
                [CallServe; Run 0 ONone; Run 0 (OListen (Some 9) false); Run 0 ONone;
                 Run 0 (OAccept (AcceptConn 33)); Run 1 ONone; Run 1 (ONewConn true);
                 Run 0 (OAccept (AcceptConn 34));
                 CallStop StopImmediately; Run 3 ONone; Run 3 ONone]
                1 33 HN eq_refl eq_refl) as (_ & H2 & _).
    exact (proj1 (proj2 (H2 0 eq_refl))).
  - destruct (late_stream_is_closed 5 _ _ _
                [CallServe; Run 0 ONone; Run 0 (OListen (Some 9) false); Run 0 ONone;
                 Run 0 (OAccept (AcceptConn 33)); Run 1 ONone; Run 1 (ONewConn true);
                 Run 0 (OAccept (AcceptConn 34));
                 CallStop StopImmediately; Run 3 ONone; Run 3 ONone]
                1 33 HN eq_refl eq_refl) as (_ & H2 & _).
    exact (proj1 (H2 0 eq_refl)).
Defined.

(** * The protocol of the test *)

Lemma byte_val_bounds (b : Byte.byte) : (0 ≤ byte_val b < 256)%Z.
Proof.
  unfold byte_val. pose proof (Byte.to_N_bounded b) as Hb. lia.
Qed.

Lemma byte_val_of (z : Z) : byte_val (byte_of z) = (z `mod` 256)%Z.
Proof.
  unfold byte_val, byte_of.
  assert (Hm : (0 ≤ z `mod` 256 < 256)%Z) by (apply Z.mod_pos_bound; lia).
  destruct (Byte.of_N (Z.to_N (z `mod` 256))) as [y|] eqn:E; simpl.
  - apply Byte.to_of_N in E. rewrite E. lia.
  - apply Byte.of_N_None_iff in E. lia.
Qed.

Lemma byte_of_val (b : Byte.byte) : byte_of (byte_val b) = b.
Proof.
  unfold byte_of. pose proof (byte_val_bounds b) as Hb.
  rewrite Z.mod_small by done. unfold byte_val.
  by rewrite N2Z.id, Byte.of_to_N.
Qed.

Lemma byte_of_eq (z : Z) (b : Byte.byte) :
  (z `mod` 256)%Z = byte_val b → byte_of z = b.
Proof.
  intros H. rewrite <- (byte_of_val b), <- H. unfold byte_of.
  by rewrite Z.mod_mod by lia.
Qed.

Lemma div_65536 (v : Z) : (v `div` 65536 = (v `div` 256) `div` 256)%Z.
Proof. rewrite Z.div_div by lia. done. Qed.

Lemma div_16777216 (v : Z) :
  (v `div` 16777216 = ((v `div` 256) `div` 256) `div` 256)%Z.
Proof. rewrite !Z.div_div by lia. done. Qed.

Lemma Uint32_PutUint32 (v : Z) (rest : list Byte.byte) :
  (0 ≤ v < 2 ^ 32)%Z → Uint32 (PutUint32 v ++ rest) = Some v.
Proof.
  intros Hv. unfold PutUint32, Uint32. simpl. f_equal.
  rewrite !byte_val_of.
  change (2 ^ 24)%Z with 16777216%Z. change (2 ^ 16)%Z with 65536%Z.
  change (2 ^ 8)%Z with 256%Z. change (2 ^ 32)%Z with 4294967296%Z in Hv.
  rewrite div_65536, div_16777216.
  Z.div_mod_to_equations. lia.
Qed.

Lemma PutUint32_Uint32 (b0 b1 b2 b3 : Byte.byte) :
  let v := (byte_val b0 * 2 ^ 24 + byte_val b1 * 2 ^ 16 + byte_val b2 * 2 ^ 8
            + byte_val b3)%Z in
  (0 ≤ v < 2 ^ 32)%Z ∧ PutUint32 v = [b0; b1; b2; b3].
Proof.
  intros v. subst v.
  pose proof (byte_val_bounds b0). pose proof (byte_val_bounds b1).
  pose proof (byte_val_bounds b2). pose proof (byte_val_bounds b3).
  change (2 ^ 24)%Z with 16777216%Z. change (2 ^ 16)%Z with 65536%Z.
  change (2 ^ 8)%Z with 256%Z. change (2 ^ 32)%Z with 4294967296%Z.
  split; [lia|]. unfold PutUint32.
  change (2 ^ 24)%Z with 16777216%Z. change (2 ^ 16)%Z with 65536%Z.
  change (2 ^ 8)%Z with 256%Z.
  rewrite div_65536, div_16777216.
  f_equal; [|f_equal; [|f_equal; [|f_equal]]];
    apply byte_of_eq; Z.div_mod_to_equations; lia.
Qed.

Lemma Uint32_take (v : Z) (tl : list Byte.byte) :
  (0 ≤ v < 2 ^ 32)%Z → Uint32 (take 4 (PutUint32 v ++ tl)) = Some v.
Proof. intros Hv. by apply (Uint32_PutUint32 v []). Qed.

Lemma PackTo_Buffer (p : myPacket) (buf : Buffer) :
  PackTo (PacketMy p) buf
  = Some (Z.of_nat (length (msg p)), false,
          mkBuffer (Bytes buf
                    ++ PutUint32 (uint32 (4 + Z.of_nat (length (msg p)))) ++ msg p)).
Proof.
  unfold PackTo, binary_Write, Write, Buffer_Writer. simpl.
  by rewrite <- app_assoc.
Qed.

Lemma Pack_bytes (p : myPacket) :
  Pack (PacketMy p)
  = Some (PutUint32 (uint32 (4 + Z.of_nat (length (msg p)))) ++ msg p, false).
Proof.
  unfold Pack, PackTo, binary_Write, Write, Buffer_Writer. simpl.
  destruct (decide _) as [_|Hz]; [done|lia].
Qed.

Lemma Unpack_frame (m rest : list Byte.byte) :
  (4 + Z.of_nat (length m) < 2 ^ 32)%Z →
  Unpack (PutUint32 (4 + Z.of_nat (length m)) ++ m ++ rest)
  = Some (Some (mkPacket m), (4 + Z.of_nat (length m))%Z, false).
Proof.
  intros Hlen.
  assert (HL : Z.of_nat (length (PutUint32 (4 + Z.of_nat (length m)) ++ m ++ rest))
               = (4 + Z.of_nat (length m) + Z.of_nat (length rest))%Z).
  { rewrite !length_app. simpl. lia. }
  unfold Unpack, slice. rewrite HL, Uint32_take by lia. cbn [mbind option_bind].
  rewrite (proj2 (Z.ltb_ge _ 4)) by lia.
  rewrite (proj2 (Z.ltb_ge _ _)) by lia.
  rewrite decide_True by lia.
  change (drop (Z.to_nat 4) (PutUint32 (4 + Z.of_nat (length m)) ++ m ++ rest))
    with (m ++ rest).
  replace (Z.to_nat (4 + Z.of_nat (length m) - 4)) with (length m) by lia.
  by rewrite take_app_length.
Qed.

(** X1.  The frame of a message: what [Pack] returns, with its length; [Unpack]
    of the frame followed by anything returns the message and consumes the
    frame, and nothing of what follows. *)
Theorem Pack_Unpack (p : myPacket) (rest : list Byte.byte) :
  (4 + Z.of_nat (length (msg p)) < 2 ^ 32)%Z →
  ∃ bs, Pack (PacketMy p) = Some (bs, false)
    ∧ PackSize (PacketMy p) = Some (Z.of_nat (length bs))
    ∧ Unpack (bs ++ rest) = Some (Some p, Z.of_nat (length bs), false)
    ∧ drop (length bs) (bs ++ rest) = rest.
Proof.
  intros Hlen. eexists. split; [apply Pack_bytes|].
  unfold uint32. rewrite Z.mod_small by lia.
  assert (Hl : Z.of_nat (length (PutUint32 (4 + Z.of_nat (length (msg p))) ++ msg p))
               = (4 + Z.of_nat (length (msg p)))%Z).
  { rewrite length_app. simpl. lia. }
  split_and!.
  - by rewrite Hl.
  - rewrite Hl, <- app_assoc, Unpack_frame by done. by destruct p.
  - by rewrite drop_app_length.
Qed.

Lemma Pack_Unpack_witness :
  ∃ bs, Pack (PacketMy (mkPacket [Byte.x68; Byte.x69])) = Some (bs, false)
    ∧ Unpack (bs ++ [Byte.x00]) = Some (Some (mkPacket [Byte.x68; Byte.x69]), 6%Z, false).
Proof.
  destruct (Pack_Unpack (mkPacket [Byte.x68; Byte.x69]) [Byte.x00])
    as (bs & H1 & _ & H2 & _); [simpl; lia|].
  exists bs. split; [exact H1|].
  assert (Hl : Z.of_nat (length bs) = 6%Z).
  { rewrite Pack_bytes in H1. injection H1 as <-. reflexivity. }
  by rewrite <- Hl.
Defined.

(** X2.  A frame that has not arrived whole is not an error: for a message
    whose frame is shorter than 2^32 bytes, so that its length fits the
    [uint32] of the header, [Unpack] returns on every proper prefix of the
    frame no packet, consumes nothing and reports no error. *)
Theorem Unpack_partial (p : myPacket) (bs : list Byte.byte) (k : nat) :
  (4 + Z.of_nat (length (msg p)) < 2 ^ 32)%Z →
  Pack (PacketMy p) = Some (bs, false) →
  k < length bs →
  Unpack (take k bs) = Some (None, 0%Z, false).
Proof.
  intros Hlen HP Hk. rewrite Pack_bytes in HP.
  unfold uint32 in HP. rewrite Z.mod_small in HP by lia.
  assert (Hbs : bs = PutUint32 (4 + Z.of_nat (length (msg p))) ++ msg p) by congruence.
  subst bs. clear HP.
  rewrite length_app in Hk. change (length (PutUint32 _)) with 4 in Hk.
  unfold Unpack. rewrite length_take, length_app.
  change (length (PutUint32 _)) with 4.
  destruct (_ <? 4)%Z eqn:E1; [done|]. apply Z.ltb_ge in E1.
  assert (Hk4 : 4 ≤ k) by lia.
  replace (take 4 (take k (PutUint32 (4 + Z.of_nat (length (msg p))) ++ msg p)))
    with (take 4 (PutUint32 (4 + Z.of_nat (length (msg p))) ++ msg p)).
  2: { rewrite take_take. f_equal. lia. }
  rewrite Uint32_take by lia. simpl mbind.
  destruct (_ <? _)%Z eqn:E2; [done|]. apply Z.ltb_ge in E2. lia.
Qed.

Lemma Unpack_partial_witness :
  Unpack (take 5 [Byte.x00; Byte.x00; Byte.x00; Byte.x06; Byte.x68; Byte.x69])
  = Some (None, 0%Z, false).
Proof.
  apply (Unpack_partial (mkPacket [Byte.x68; Byte.x69])); [simpl; lia | reflexivity | simpl; lia].
Defined.


(** X4.  What [Unpack] consumes is a frame: when it returns a packet [p] and a
    count [n], the first [n] bytes of the buffer are what [Pack] makes of
    [p], the message being the bytes from the fifth to the [n]-th. *)
Theorem Unpack_Pack (buf : list Byte.byte) (p : myPacket) (n : Z) (err : bool) :
  Unpack buf = Some (Some p, n, err) →
  (4 ≤ n ≤ Z.of_nat (length buf))%Z
  ∧ msg p = take (Z.to_nat n - 4) (drop 4 buf)
  ∧ Pack (PacketMy p) = Some (take (Z.to_nat n) buf, false).
Proof.
  unfold Unpack, slice.
  destruct (Z.of_nat (length buf) <? 4)%Z eqn:E1; [done|]. apply Z.ltb_ge in E1.
  destruct buf as [|b0 [|b1 [|b2 [|b3 tl]]]]; simpl in E1; try lia.
  change (take 4 (b0 :: b1 :: b2 :: b3 :: tl)) with [b0; b1; b2; b3].
  cbn [Uint32 mbind option_bind].
  destruct (PutUint32_Uint32 b0 b1 b2 b3) as [Hv Hput].
  set (v := (byte_val b0 * 2 ^ 24 + byte_val b1 * 2 ^ 16 + byte_val b2 * 2 ^ 8
             + byte_val b3)%Z) in *.
  destruct (_ <? v)%Z eqn:E2; [done|]. apply Z.ltb_ge in E2.
  destruct (decide _) as [Hok|Hbad]; cbn [mbind option_bind]; [|done].
  intros [= <- <- <-]. simpl in E2.
  change (drop (Z.to_nat 4) (b0 :: b1 :: b2 :: b3 :: tl)) with tl.
  replace (Z.to_nat (v - 4)) with (Z.to_nat v - 4) by lia.
  split; [lia|]. split; [done|].
  rewrite Pack_bytes. simpl msg. change (drop 0 tl) with tl.
  assert (Hlen : Z.of_nat (length (take (Z.to_nat v - 4) tl)) = (v - 4)%Z).
  { rewrite length_take. lia. }
  rewrite Hlen. replace (4 + (v - 4))%Z with v by lia.
  unfold uint32. rewrite Z.mod_small by done. rewrite Hput.
  do 2 f_equal.
  replace (Z.to_nat v) with (4 + (Z.to_nat v - 4)) at 2 by lia. done.
Qed.

Lemma Unpack_Pack_witness :
  Pack (PacketMy (mkPacket [Byte.x68; Byte.x69]))
  = Some (take (Z.to_nat 6)
            [Byte.x00; Byte.x00; Byte.x00; Byte.x06; Byte.x68; Byte.x69; Byte.x00],
          false).
Proof.
  exact (proj2 (proj2 (Unpack_Pack
           [Byte.x00; Byte.x00; Byte.x00; Byte.x06; Byte.x68; Byte.x69; Byte.x00]
           (mkPacket [Byte.x68; Byte.x69]) 6 false eq_refl))).
Defined.

(** X5.  [PackTo] into a [bytes.Buffer] does not fail and appends the whole
    frame, [PackSize] bytes, but the count it returns leaves the four bytes
    of the length field out; [PackTo] and [Pack] panic on a packet that is no
    [*myPacket], and [Pack] returns no error on one that is. *)
Theorem PackTo_counts_message_only (p : myPacket) (buf : Buffer) :
  (∃ n buf', PackTo (PacketMy p) buf = Some (n, false, buf')
     ∧ PackSize (PacketMy p) = Some (n + 4)%Z
     ∧ Z.of_nat (length (Bytes buf')) = (Z.of_nat (length (Bytes buf)) + (n + 4))%Z
     ∧ take (length (Bytes buf)) (Bytes buf') = Bytes buf
     ∧ Pack (PacketMy p) = Some (drop (length (Bytes buf)) (Bytes buf'), false))
  ∧ PackTo PacketOther buf = None
  ∧ Pack PacketOther = None.
Proof.
  split; [|done].
  eexists _, _. split; [apply PackTo_Buffer|]. simpl Bytes.
  split_and!.
  - simpl. f_equal. lia.
  - rewrite !length_app. simpl length. lia.
  - by rewrite take_app_length.
  - by rewrite drop_app_length, Pack_bytes.
Qed.

(** * The handler of the test *)

Lemma OnEvents_spec (evs : list (EventType * Packet * list Byte.byte))
    (h h' : myHandler) (calls : list ConnCall) :
  OnEvents evs h = Some (h', calls) →
  name h' = name h
  ∧ recvs h' = recvs h ++ messagesOf EventRecv evs
  ∧ sends h' = sends h ++ messagesOf EventSend evs
  ∧ length (List.filter is_ConnStop calls)
    = (if decide (length (recvs h) < 10 ≤ length (recvs h')) then 1 else 0).
Proof.
  revert h h' calls. induction evs as [|[[et p] now] evs IH]; intros h h' calls.
  - simpl. intros [= <- <-]. unfold messagesOf. simpl. rewrite !app_nil_r.
    split_and!; [done..|]. rewrite decide_False by lia. done.
  - simpl. destruct (OnEvent et p now h) as [[h1 calls1]|] eqn:E1; simpl; [|done].
    destruct (OnEvents evs h1) as [[h2 calls2]|] eqn:E2; simpl; [|done].
    intros [= <- <-]. destruct (IH _ _ _ E2) as (Hn & Hr & Hs & Hc).
    rewrite List.filter_app, length_app, Hc, Hn, Hr, Hs.
    unfold messagesOf. simpl. fold (messagesOf EventRecv evs).
    fold (messagesOf EventSend evs).
    assert (Hl2 : length (recvs h2) = length (recvs h1) + length (messagesOf EventRecv evs)).
    { by rewrite Hr, length_app. }
    clear IH E2 Hc Hn Hs.
    destruct et, p as [q|]; simpl in E1; simplify_eq/=;
      rewrite ?app_nil_r, ?length_app, <- ?app_assoc in *; simpl in *;
      try (split_and!; [done..|]; repeat case_decide; lia).
    destruct (_ =? 10) eqn:E10; simplify_eq/=;
      [apply Nat.eqb_eq in E10 | apply Nat.eqb_neq in E10];
      rewrite ?length_app in *; simpl in *;
      (split_and!; [done | by rewrite <- app_assoc | done |]);
      repeat case_decide; lia.
Qed.

(** X6.  The handler of the test records what was sent and what was received,
    in order, and asks the connection to stop exactly once, gracefully and
    without waiting: when the tenth packet is received, and not again
    whatever follows. *)
Theorem handler_stops_at_tenth (evs : list (EventType * Packet * list Byte.byte))
    (nm : list Byte.byte) (h' : myHandler) (calls : list ConnCall) :
  OnEvents evs (mkHandler nm [] []) = Some (h', calls) →
  recvs h' = messagesOf EventRecv evs
  ∧ sends h' = messagesOf EventSend evs
  ∧ List.filter is_ConnStop calls
    = (if decide (10 ≤ length (messagesOf EventRecv evs))
       then [ConnStop StopGracefullyButNotWait] else []).
Proof.
  intros H. destruct (OnEvents_spec _ _ _ _ H) as (_ & Hr & Hs & Hc).
  simpl in *. split_and!; [done..|]. rewrite <- Hr.
  assert (Hall : Forall (λ c, c = ConnStop StopGracefullyButNotWait)
                   (List.filter is_ConnStop calls)).
  { clear Hr Hs Hc. revert H. generalize (mkHandler nm [] []).
    revert h' calls. induction evs as [|[[et p] now] evs IH]; intros h' calls h.
    - simpl. intros [= <- <-]. constructor.
    - simpl. destruct (OnEvent et p now h) as [[h1 calls1]|] eqn:E1; simpl; [|done].
      destruct (OnEvents evs h1) as [[h2 calls2]|] eqn:E2; simpl; [|done].
      intros [= <- <-]. rewrite List.filter_app. apply Forall_app. split; [|eauto].
      destruct et, p as [q|]; simpl in E1; simplify_eq/=; try constructor.
      destruct (_ =? 10); simplify_eq/=; repeat constructor. }
  destruct (List.filter is_ConnStop calls) as [|c1 [|c2 l]];
    repeat case_decide; simpl in *; try lia; try done.
  by apply Forall_cons in Hall as [-> _].
Qed.

Lemma handler_stops_at_tenth_witness :
  match OnEvents (replicate 12 (EventRecv, PacketMy (mkPacket [Byte.x68]), [Byte.x21]))
          (mkHandler [Byte.x63] [] []) with
  | Some (h', calls) =>
      List.filter is_ConnStop calls = [ConnStop StopGracefullyButNotWait]
  | None => False
  end.
Proof.
  destruct (OnEvents _ _) as [[h' calls]|] eqn:E.
  - pose proof (proj2 (proj2 (handler_stops_at_tenth _ _ _ _ E))) as H.
    rewrite decide_True in H by (simpl; lia). exact H.
  - vm_compute in E. discriminate E.
Defined.

(** * The goroutines of the server *)

Ltac ltb_to_lt :=
  repeat match goal with
  | H : (_ <? _)%Z = true |- _ => apply Z.ltb_lt in H
  | H : (_ <? _)%Z = false |- _ => apply Z.ltb_ge in H
  | H : (_ =? _)%Z = true |- _ => apply Z.eqb_eq in H
  | H : (_ =? _)%Z = false |- _ => apply Z.eqb_neq in H
  end.

(** ** Backoff *)

Lemma nextDelay_bounds (d : Z) :
  d = 0%Z ∨ (5 * Millisecond ≤ d ≤ Second)%Z →
  (5 * Millisecond ≤ nextDelay d ≤ Second)%Z ∧ (d ≤ nextDelay d)%Z.
Proof.
  intros Hd. unfold nextDelay, Second, Millisecond in *.
  change (wrap64 (1 * 1000000000)) with 1000000000%Z.
  change (wrap64 (5 * 1000000)) with 5000000%Z.
  destruct (d =? 0)%Z eqn:E0; ltb_to_lt.
  - change (5000000 >? 1000000000)%Z with false. lia.
  - rewrite wrap64_small by lia. rewrite Z.gtb_ltb.
    destruct (_ <? _)%Z eqn:E; ltb_to_lt; lia.
Qed.

Lemma step_delay_ok (a : Label) (σ : World) :
  Forall delay_ok (goroutines σ) → Forall delay_ok (goroutines (step a σ)).
Proof.
  intros H. step_cases a σ; try done;
    try match goal with
    | Hg : goroutines σ !! _ = Some _ |- _ =>
        pose proof (Forall_lookup_1 _ _ _ _ H Hg) as Hold; simpl in Hold
    end;
    rewrite ?Forall_app; repeat split;
    try (apply Forall_insert; [done|]); try by repeat constructor.
  all: simpl; try (unfold Second, Millisecond; lia).
  all: try by apply nextDelay_bounds.
  all: by right.
Qed.

(** X7.  In every interleaving the delay that an accept loop holds is zero or
    between 5ms and one second, and between 5ms and one second while the loop
    backs off; from such a delay the next one is between 5ms and one second
    and not shorter: the doubling of line 78 never overflows. *)
Theorem delay_within_bounds (s : Server) (h : gmap nat ServerOpts)
    (sched : list Label) :
  Forall delay_ok (goroutines (run sched (boot s h)))
  ∧ ∀ d, d = 0%Z ∨ (5 * Millisecond ≤ d ≤ Second)%Z →
         (5 * Millisecond ≤ nextDelay d ≤ Second)%Z ∧ (d ≤ nextDelay d)%Z.
Proof.
  split; [|apply nextDelay_bounds].
  assert (H : ∀ σ, Forall delay_ok (goroutines σ) →
                   Forall delay_ok (goroutines (run sched σ))).
  { induction sched as [|a sched IH]; intros σ Hσ; [done|].
    rewrite run_cons. by apply IH, step_delay_ok. }
  apply H. constructor.
Qed.

(** ** The completion counter *)

Lemma sum_list_with_insert {A} (f : A → nat) (l : list A) (i : nat) (x y : A) :
  l !! i = Some x →
  sum_list_with f (<[i := y]> l) + f x = sum_list_with f l + f y.
Proof.
  revert i. induction l as [|z l IH]; intros [|i] Hl; simplify_eq/=; [lia|].
  specialize (IH i Hl). lia.
Qed.

(** After a step: what a sum over the goroutines was before it. *)
Ltac sum_step f σ :=
  try match goal with
  | Hg : goroutines σ !! ?tid = Some ?g
    |- context [<[?tid := ?g']> (goroutines σ)] =>
      pose proof (sum_list_with_insert f _ _ _ g' Hg); simpl in *
  | Hg : goroutines σ !! ?tid = Some ?g |- _ =>
      pose proof (sum_list_with_in g f (goroutines σ)
                    (list_elem_of_lookup_2 _ _ _ Hg)); simpl in *
  end.

Lemma step_wg (a : Label) (σ : World) :
  wg (srv σ) = Z.of_nat (sum_list_with counted (goroutines σ)) →
  wg (srv (step a σ)) = Z.of_nat (sum_list_with counted (goroutines (step a σ))).
Proof.
  intros H. step_cases a σ; ltb_to_lt; try done;
    rewrite ?sum_list_with_app; simpl; sum_step counted σ; lia.
Qed.

Lemma run_wg (sched : list Label) (σ : World) :
  wg (srv σ) = Z.of_nat (sum_list_with counted (goroutines σ)) →
  wg (srv (run sched σ)) = Z.of_nat (sum_list_with counted (goroutines (run sched σ))).
Proof.
  revert σ. induction sched as [|a sched IH]; intros σ H; [done|].
  rewrite run_cons. by apply IH, step_wg.
Qed.

Lemma NewServer_fresh (opts : nat) (h h' : gmap nat ServerOpts) (s : Server) :
  NewServer opts h = Some (s, h') →
  s = mkServer opts false 0 None (Some ∅) ∧ is_Some (h' !! opts).
Proof.
  unfold NewServer. simpl. intros H. repeat case_match; simplify_eq/=.
  - split; [done|]. rewrite lookup_insert_eq. eauto.
  - eauto.
Qed.

Lemma sum_list_with_0 {A} (f : A → nat) (l : list A) :
  sum_list_with f l = 0 → Forall (λ x, f x = 0) l.
Proof.
  induction l as [|x l IH]; simpl; intros H; constructor; [lia|].
  apply IH. lia.
Qed.

(** X8.  In every interleaving from a fresh server the completion counter is
    the number of goroutines between their [s.wg.Add(1)] and their
    [s.wg.Done()]: the accept loops from line 55 to line 43, and the calls of
    [handleRawConn] from line 169 to line 166.  It is never negative. *)
Theorem counter_counts_goroutines (opts : nat) (h h' : gmap nat ServerOpts)
    (s : Server) (sched : list Label) :
  NewServer opts h = Some (s, h') →
  let σ := run sched (boot s h') in
  wg (srv σ) = Z.of_nat (sum_list_with counted (goroutines σ))
  ∧ (0 ≤ wg (srv σ))%Z.
Proof.
  intros HN σ. destruct (NewServer_fresh _ _ _ _ HN) as [-> _].
  assert (H : wg (srv σ) = Z.of_nat (sum_list_with counted (goroutines σ))).
  { by apply run_wg. }
  split; [done | lia].
Qed.

Lemma counter_counts_goroutines_witness :
  let σ := run [CallServe; Run 0 ONone; Run 0 (OListen (Some 9) false); Run 0 ONone;
                Run 0 (OAccept (AcceptConn 33)); Run 1 ONone; Run 1 (ONewConn true);
                Run 1 ONone; Run 1 ONone]
             (boot (mkServer 5 false 0 None (Some ∅))
                {[ 5 := mkServerOpts ":8080" 1 2 128 ]}) in
  wg (srv σ) = Z.of_nat (sum_list_with counted (goroutines σ))
  ∧ (0 ≤ wg (srv σ))%Z.
Proof.
  intros σ.
  assert (HN : NewServer 5 {[ 5 := mkServerOpts ":8080" 1 2 128 ]}
               = Some (mkServer 5 false 0 None (Some ∅),
                       {[ 5 := mkServerOpts ":8080" 1 2 128 ]})) by reflexivity.
  exact (counter_counts_goroutines 5 _ _ _
           [CallServe; Run 0 ONone; Run 0 (OListen (Some 9) false); Run 0 ONone;
            Run 0 (OAccept (AcceptConn 33)); Run 1 ONone; Run 1 (ONewConn true);
            Run 1 ONone; Run 1 ONone] HN).
Defined.

(** X9.  In every interleaving from a fresh server, when a [Stop] with
    [StopGracefullyAndWait] is through with waiting, no accept loop is
    between its [s.wg.Add(1)] and its [s.wg.Done()] and no call of
    [handleRawConn] is between line 169 and line 166: nothing is being
    served. *)
Theorem Wait_returns_when_quiet (opts : nat) (h h' : gmap nat ServerOpts)
    (s : Server) (sched : list Label) (tid : nat) :
  NewServer opts h = Some (s, h') →
  let σ := run sched (boot s h') in
  goroutines σ !! tid = Some (GStop StopGracefullyAndWait StopWait) →
  is_Some (gstep tid ONone (GStop StopGracefullyAndWait StopWait) σ) →
  Forall (λ g, counted g = 0) (goroutines σ).
Proof.
  intros HN σ Hg [σ' Hs]. destruct (NewServer_fresh _ _ _ _ HN) as [-> _].
  assert (H : wg (srv σ) = Z.of_nat (sum_list_with counted (goroutines σ))).
  { by apply run_wg. }
  simpl in Hs. destruct (wg (srv σ) =? 0)%Z eqn:E; [|done]. ltb_to_lt.
  apply sum_list_with_0. lia.
Qed.

Lemma Wait_returns_when_quiet_witness :
  let σ := run [CallServe; Run 0 ONone; Run 0 (OListen (Some 9) false); Run 0 ONone;
                CallStop StopGracefullyAndWait; Run 1 ONone; Run 1 ONone; Run 1 ONone;
                Run 1 ONone; Run 0 (OAccept AcceptOtherError); Run 0 ONone]
             (boot (mkServer 5 false 0 None (Some ∅))
                {[ 5 := mkServerOpts ":8080" 1 2 128 ]}) in
  Forall (λ g, counted g = 0) (goroutines σ).
Proof.
  intros σ.
  assert (HN : NewServer 5 {[ 5 := mkServerOpts ":8080" 1 2 128 ]}
               = Some (mkServer 5 false 0 None (Some ∅),
                       {[ 5 := mkServerOpts ":8080" 1 2 128 ]})) by reflexivity.
  assert (Hg : goroutines σ !! 1 = Some (GStop StopGracefullyAndWait StopWait))
    by (vm_compute; reflexivity).
  assert (Hw : wg (srv σ) = 0%Z) by (vm_compute; reflexivity).
  refine (Wait_returns_when_quiet 5 _ _ _
            [CallServe; Run 0 ONone; Run 0 (OListen (Some 9) false); Run 0 ONone;
             CallStop StopGracefullyAndWait; Run 1 ONone; Run 1 ONone; Run 1 ONone;
             Run 1 ONone; Run 0 (OAccept AcceptOtherError); Run 0 ONone]
            1 HN Hg _).
  fold σ. simpl. rewrite Hw. simpl. by eexists.
Defined.

(** ** No panic *)

Lemma step_opts (a : Label) (σ : World) :
  opts_heap (step a σ) = opts_heap σ ∧ Opts (srv (step a σ)) = Opts (srv σ).
Proof. step_cases a σ; done. Qed.

Lemma run_opts (sched : list Label) (σ : World) :
  opts_heap (run sched σ) = opts_heap σ ∧ Opts (srv (run sched σ)) = Opts (srv σ).
Proof.
  revert σ. induction sched as [|a sched IH]; intros σ; [done|].
  rewrite run_cons. destruct (IH (step a σ)) as [-> ->]. apply step_opts.
Qed.

Lemma calm_step (a : Label) (σ : World) :
  halted σ = false →
  is_Some (opts_heap σ !! Opts (srv σ)) →
  wg (srv σ) = Z.of_nat (sum_list_with counted (goroutines σ)) →
  fatalListen a = false →
  stopCalls [a] + sum_list_with closing (goroutines σ)
    + (if stop (srv σ) then 1 else 0) ≤ 1 →
  halted (step a σ) = false
  ∧ sum_list_with closing (goroutines (step a σ))
    + (if stop (srv (step a σ)) then 1 else 0)
    ≤ stopCalls [a] + sum_list_with closing (goroutines σ)
      + (if stop (srv σ) then 1 else 0).
Proof.
  intros Hh [o Ho] Hwg Hf Hφ. unfold stopCalls in *.
  destruct (stop (srv σ)) eqn:Hs;
    step_cases a σ; ltb_to_lt; try done; try congruence;
    rewrite ?sum_list_with_app, ?Hs; simpl in *;
    sum_step closing σ; try (split; [done|lia]); try lia.
  all: sum_step counted σ; lia.
Qed.

Lemma calm_run (sched : list Label) (σ : World) :
  halted σ = false →
  is_Some (opts_heap σ !! Opts (srv σ)) →
  wg (srv σ) = Z.of_nat (sum_list_with counted (goroutines σ)) →
  Forall (λ a, fatalListen a = false) sched →
  stopCalls sched + sum_list_with closing (goroutines σ)
    + (if stop (srv σ) then 1 else 0) ≤ 1 →
  halted (run sched σ) = false
  ∧ sum_list_with closing (goroutines (run sched σ))
    + (if stop (srv (run sched σ)) then 1 else 0) ≤ 1.
Proof.
  revert σ. induction sched as [|a sched IH]; intros σ Hh Ho Hwg Hf Hφ.
  { rewrite run_nil. split; [done|]. unfold stopCalls in Hφ. simpl in Hφ. lia. }
  apply Forall_cons in Hf as [Hfa Hf].
  assert (Hsc : stopCalls (a :: sched) = stopCalls [a] + stopCalls sched).
  { unfold stopCalls. simpl. by destruct a. }
  rewrite Hsc in Hφ.
  destruct (calm_step a σ Hh Ho Hwg Hfa) as [Hh' Hφ']; [lia|].
  destruct (step_opts a σ) as [Ho1 Ho2].
  rewrite run_cons. apply IH; [done | by rewrite Ho1, Ho2 | by apply step_wg | done | lia].
Qed.

(** X10.  On a server that is stopped at most once, and whose [net.Listen]
    does not fail with an [xlog.Fatalf] that exits, three panics never
    happen, in any interleaving: the [close] of a closed stop channel
    (line 112), the dereference of a nil [s.Opts] (lines 57 and 153), and a
    negative counter in [s.wg.Done()] (lines 43 and 166).  In every state
    that is reached the stop channel is open when a [Stop] is about to close
    it, [s.Opts] points to options, and the counter is at least one when a
    goroutine is between its [s.wg.Add(1)] and its [s.wg.Done()].  The panics
    by which [sync.WaitGroup] answers an [Add] that races with [Wait] are not
    among them. *)
Theorem close_Opts_Done_do_not_panic (opts : nat) (h h' : gmap nat ServerOpts)
    (s : Server) (sched : list Label) :
  NewServer opts h = Some (s, h') →
  stopCalls sched ≤ 1 →
  Forall (λ a, fatalListen a = false) sched →
  let σ := run sched (boot s h') in
  halted σ = false
  ∧ is_Some (opts_heap σ !! Opts (srv σ))
  ∧ (∀ tid mode, goroutines σ !! tid = Some (GStop mode StopClose) →
       stop (srv σ) = false)
  ∧ (∀ tid g, goroutines σ !! tid = Some g → counted g = 1 →
       (1 ≤ wg (srv σ))%Z).
Proof.
  intros HN Hc Hf σ. destruct (NewServer_fresh _ _ _ _ HN) as [-> Ho].
  destruct (calm_run sched (boot (mkServer opts false 0 None (Some ∅)) h'))
    as [Hh Hφ]; simpl; [done | done | done | done | lia |].
  fold σ in Hh, Hφ.
  assert (Hwg : wg (srv σ) = Z.of_nat (sum_list_with counted (goroutines σ))).
  { by apply run_wg. }
  split_and!.
  - done.
  - unfold σ.
    destruct (run_opts sched (boot (mkServer opts false 0 None (Some ∅)) h'))
      as [-> ->]. done.
  - intros tid mode Hg.
    pose proof (sum_list_with_in _ closing (goroutines σ)
                  (list_elem_of_lookup_2 _ _ _ Hg)) as Hin. simpl in Hin.
    destruct (stop (srv σ)); [lia | done].
  - intros tid g Hg Hcnt.
    pose proof (sum_list_with_in _ counted (goroutines σ)
                  (list_elem_of_lookup_2 _ _ _ Hg)) as Hin. lia.
Qed.

Lemma close_Opts_Done_do_not_panic_witness :
  let σ := run [CallServe; Run 0 ONone; Run 0 (OListen (Some 9) false); Run 0 ONone;
                Run 0 (OAccept (AcceptConn 33)); Run 1 ONone; Run 1 (ONewConn true);
                Run 1 ONone; Run 1 ONone; CallStop StopImmediately]
             (boot (mkServer 5 false 0 None (Some ∅))
                {[ 5 := mkServerOpts ":8080" 1 2 128 ]}) in
  halted σ = false
  ∧ is_Some (opts_heap σ !! Opts (srv σ))
  ∧ (∀ tid mode, goroutines σ !! tid = Some (GStop mode StopClose) →
       stop (srv σ) = false)
  ∧ (∀ tid g, goroutines σ !! tid = Some g → counted g = 1 →
       (1 ≤ wg (srv σ))%Z).
Proof.
  assert (HN : NewServer 5 {[ 5 := mkServerOpts ":8080" 1 2 128 ]}
               = Some (mkServer 5 false 0 None (Some ∅),
                       {[ 5 := mkServerOpts ":8080" 1 2 128 ]})) by reflexivity.
  apply (close_Opts_Done_do_not_panic 5 _ _ _ _ HN);
    [vm_compute; lia | by repeat constructor].
Defined.

(** ** The registry holds the live connections *)

Lemma live_insert (gs : list Goroutine) (tid : nat) (g g' : Goroutine) (c : nat) :
  gs !! tid = Some g →
  (live c g' ↔ live c g) →
  (∃ t x, <[tid := g']> gs !! t = Some x ∧ live c x)
  ↔ (∃ t x, gs !! t = Some x ∧ live c x).
Proof.
  intros Hg Hl. split.
  - intros (t & x & Hx & Hlx). apply list_lookup_insert_Some in Hx as [(-> & <- & _)|[? Hx]].
    + exists t, g. split; [done|]. by apply Hl.
    + eauto.
  - intros (t & x & Hx & Hlx). destruct (decide (t = tid)) as [->|Hne].
    + simplify_eq. exists tid, g'. split; [|by apply Hl].
      apply list_lookup_insert_eq. by eapply lookup_lt_Some.
    + exists t, x. split; [|done]. by rewrite list_lookup_insert_ne.
Qed.

Lemma live_snoc (gs : list Goroutine) (g : Goroutine) (c : nat) :
  ¬ live c g →
  (∃ t x, (gs ++ [g]) !! t = Some x ∧ live c x)
  ↔ (∃ t x, gs !! t = Some x ∧ live c x).
Proof.
  intros Hg. split.
  - intros (t & x & Hx & Hlx). apply lookup_app_Some in Hx as [Hx|[_ Hx]]; [eauto|].
    apply list_lookup_singleton_Some in Hx as [_ <-]. done.
  - intros (t & x & Hx & Hlx). exists t, x. split; [|done].
    by apply lookup_app_l_Some.
Qed.

Lemma RegInv_frame (σ σ' : World) :
  RegInv σ →
  conns (srv σ') = conns (srv σ) →
  (∀ c, Live σ' c ↔ Live σ c) →
  RegInv σ'.
Proof.
  intros HR Hc HL m Hm c. rewrite Hc in Hm. destruct (HR m Hm c) as [H1 H2].
  split; [|done]. by rewrite HL.
Qed.

Ltac live_frame :=
  intros ?; unfold Live; simpl;
  try (etrans; [apply live_snoc; simpl; tauto|]);
  first [ reflexivity
        | eapply live_insert; [eassumption | simpl; tauto] ].

Lemma RegInv_addConn (σ σ' : World) (tid conn c : nat) (m : gmap nat bool) :
  RegInv σ →
  goroutines σ !! tid = Some (GHandle conn (HandleAddConn c)) →
  conns (srv σ) = Some m →
  conns (srv σ') = Some (<[c := true]> m) →
  goroutines σ' = <[tid := GHandle conn (HandleWgAdd c)]> (goroutines σ) →
  RegInv σ'.
Proof.
  intros HR Hg Hm Hm' Hgs m' Hm'' c'. rewrite Hm' in Hm''. simplify_eq.
  destruct (HR m Hm c') as [H1 H2]. unfold Live. rewrite Hgs. split.
  - rewrite lookup_insert_is_Some. split.
    + intros [<-|[Hne Hin]].
      * exists tid, (GHandle conn (HandleWgAdd c)). split; [|done].
        apply list_lookup_insert_eq. by eapply lookup_lt_Some.
      * apply H1 in Hin as (t & x & Hx & Hlx). exists t, x. split; [|done].
        rewrite list_lookup_insert_ne; [done|]. intros <-. by simplify_eq/=.
    + intros (t & x & Hx & Hlx).
      apply list_lookup_insert_Some in Hx as [(-> & <- & _)|[? Hx]];
        [left; by simpl in Hlx|].
      destruct (decide (c = c')); [by left|right]. split; [done|].
      apply H1. by exists t, x.
  - intros b. rewrite lookup_insert. case_decide; [by intros [= <-]|eauto].
Qed.

Lemma RegInv_removeConn (σ σ' : World) (tid conn c : nat) (m : gmap nat bool) :
  Inv σ →
  RegInv σ →
  goroutines σ !! tid = Some (GHandle conn (HandleRemoveConn c)) →
  conns (srv σ) = Some m →
  conns (srv σ') = Some (delete c m) →
  goroutines σ' = <[tid := GHandle conn (HandleWgDone c)]> (goroutines σ) →
  RegInv σ'.
Proof.
  intros HI HR Hg Hm Hm' Hgs m' Hm'' c'. rewrite Hm' in Hm''. simplify_eq.
  destruct (HR m Hm c') as [H1 H2]. unfold Live. rewrite Hgs. split.
  - rewrite lookup_delete_is_Some. split.
    + intros [Hne Hin]. apply H1 in Hin as (t & x & Hx & Hlx).
      exists t, x. split; [|done].
      rewrite list_lookup_insert_ne; [done|]. intros <-. by simplify_eq/=.
    + intros (t & x & Hx & Hlx).
      apply list_lookup_insert_Some in Hx as [(-> & <- & _)|[Hne Hx]]; [done|].
      split; [|apply H1; by exists t, x].
      intros ->. destruct x as [|conn' pc'| |]; try done.
      assert (Hc : conn_of pc' = Some c') by (destruct pc'; simpl in *; by subst).
      by destruct (inv_uniq σ HI _ _ _ _ _ _ _ Hg eq_refl Hx Hc).
  - intros b Hb. apply lookup_delete_Some in Hb as [_ Hb]. eauto.
Qed.

Lemma RegInv_step (a : Label) (σ : World) :
  Inv σ → RegInv σ → RegInv (step a σ).
Proof.
  intros HI HR.
  step_cases a σ; try assumption;
    try (apply (RegInv_frame σ); [assumption | reflexivity | live_frame]);
    try (intros ? ?; simplify_eq/=; done).
  - eapply (RegInv_addConn σ); eauto.
  - eapply (RegInv_removeConn σ); eauto.
Qed.

Lemma RegInv_run (sched : list Label) (σ : World) :
  Inv σ → RegInv σ → RegInv (run sched σ).
Proof.
  revert σ. induction sched as [|a sched IH]; intros σ HI HR; [done|].
  rewrite run_cons. apply IH; [by apply Inv_step | by apply RegInv_step].
Qed.

Lemma RegInv_boot (h : gmap nat ServerOpts) (opts : nat) :
  RegInv (boot (mkServer opts false 0 None (Some ∅)) h).
Proof.
  intros m [= <-] c. split; [|by intros b; rewrite lookup_empty].
  rewrite lookup_empty. split; [by intros [? ?]|].
  intros (t & x & Hx & _). simpl in Hx. by rewrite lookup_nil in Hx.
Qed.

(** X11.  In every interleaving from a fresh server, while the registry is not
    nil it holds exactly the connections of the calls of [handleRawConn]
    that are past a successful [addConn] and not past their [removeConn],
    each with the value true; such a connection has been allocated, and it
    wraps a stream. *)
Theorem registry_holds_live_connections (opts : nat) (h h' : gmap nat ServerOpts)
    (s : Server) (sched : list Label) (m : gmap nat bool) (c : nat) :
  NewServer opts h = Some (s, h') →
  let σ := run sched (boot s h') in
  conns (srv σ) = Some m →
  (is_Some (m !! c)
   ↔ ∃ tid conn pc, goroutines σ !! tid = Some (GHandle conn pc)
       ∧ (pc = HandleWgAdd c ∨ pc = HandleServe c ∨ pc = HandleRemoveConn c))
  ∧ (∀ b, m !! c = Some b → b = true)
  ∧ (is_Some (m !! c) →
     c < next_conn σ ∧ ∃ conn, conn_heap σ !! c = Some (mkConn (Some conn))).
Proof.
  intros HN σ Hm. destruct (NewServer_fresh _ _ _ _ HN) as [-> _].
  assert (HI : Inv σ) by apply Inv_run, Inv_boot.
  assert (HR : RegInv σ) by (apply RegInv_run; [apply Inv_boot | apply RegInv_boot]).
  destruct (HR m Hm c) as [H1 H2].
  assert (H3 : Live σ c → ∃ tid conn pc, goroutines σ !! tid = Some (GHandle conn pc)
       ∧ (pc = HandleWgAdd c ∨ pc = HandleServe c ∨ pc = HandleRemoveConn c)).
  { intros (tid & g & Hg & Hl). destruct g as [|conn pc| |]; try done.
    exists tid, conn, pc. split; [done|].
    destruct pc; simpl in Hl; try done; subst; eauto. }
  split_and!.
  - rewrite H1. split; [done|]. intros (tid & conn & pc & Hg & Hpc).
    exists tid, (GHandle conn pc). split; [done|].
    by destruct Hpc as [->|[->| ->]].
  - done.
  - intros Hin. apply H1, H3 in Hin as (tid & conn & pc & Hg & Hpc).
    assert (Hc : conn_of pc = Some c) by (by destruct Hpc as [->|[->| ->]]).
    split; [by eapply inv_lt | exists conn; by eapply inv_raw].
Qed.

Lemma registry_holds_live_connections_witness :
  let σ := run [CallServe; Run 0 ONone; Run 0 (OListen (Some 9) false); Run 0 ONone;
                Run 0 (OAccept (AcceptConn 33)); Run 1 ONone; Run 1 (ONewConn true);
                Run 1 ONone; Run 1 ONone]
             (boot (mkServer 5 false 0 None (Some ∅))
                {[ 5 := mkServerOpts ":8080" 1 2 128 ]}) in
  is_Some (({[ 0 := true ]} : gmap nat bool) !! 0)
  ↔ ∃ tid conn pc, goroutines σ !! tid = Some (GHandle conn pc)
      ∧ (pc = HandleWgAdd 0 ∨ pc = HandleServe 0 ∨ pc = HandleRemoveConn 0).
Proof.
  intros σ.
  assert (HN : NewServer 5 {[ 5 := mkServerOpts ":8080" 1 2 128 ]}
               = Some (mkServer 5 false 0 None (Some ∅),
                       {[ 5 := mkServerOpts ":8080" 1 2 128 ]})) by reflexivity.
  assert (Hm : conns (srv σ) = Some {[ 0 := true ]}) by (vm_compute; reflexivity).
  exact (proj1 (registry_holds_live_connections 5 _ _ _
           [CallServe; Run 0 ONone; Run 0 (OListen (Some 9) false); Run 0 ONone;
            Run 0 (OAccept (AcceptConn 33)); Run 1 ONone; Run 1 (ONewConn true);
            Run 1 ONone; Run 1 ONone] _ 0 HN Hm)).
Defined.

(** ** Registering and unregistering *)

(** X12.  [removeConn] of a connection that is not registered changes nothing,
    nil registry or not; [addConn] of such a connection registers it exactly
    when it returns true, and the [removeConn] that follows gives the server
    back as it was. *)
Theorem addConn_removeConn (c : nat) (s : Server) :
  registered c s = false →
  removeConn c s = s
  ∧ registered c (addConn c s).1 = (addConn c s).2
  ∧ (addConn c s).2 = bool_decide (is_Some (conns s))
  ∧ removeConn c (addConn c s).1 = s.
Proof.
  destruct s as [o st w l [m|]]; unfold registered, removeConn, addConn, set_conns;
    simpl; [|done].
  intros Hr. apply bool_decide_eq_false in Hr.
  assert (Hn : m !! c = None) by (by apply eq_None_not_Some).
  split_and!.
  - by rewrite delete_id.
  - rewrite lookup_insert_eq. done.
  - done.
  - by rewrite delete_insert_id.
Qed.

Lemma addConn_removeConn_witness :
  removeConn 7 (addConn 7 (mkServer 5 false 0 None (Some {[ 3 := true ]}))).1
  = mkServer 5 false 0 None (Some {[ 3 := true ]}).
Proof.
  assert (Hr : registered 7 (mkServer 5 false 0 None (Some {[ 3 := true ]})) = false)
    by reflexivity.
  exact (proj2 (proj2 (proj2 (addConn_removeConn 7 _ Hr)))).
Defined.

(** ** The listener *)

Lemma occurrences_app (e : Event) (tr1 tr2 : list Event) :
  occurrences e (tr1 ++ tr2) = occurrences e tr1 + occurrences e tr2.
Proof. unfold occurrences. by rewrite filter_app, length_app. Qed.

Lemma occurrences_cons (e x : Event) (tr : list Event) :
  occurrences e (x :: tr) = (if decide (x = e) then 1 else 0) + occurrences e tr.
Proof.
  unfold occurrences. rewrite filter_cons. by case_decide.
Qed.

Lemma occurrences_nil (e : Event) : occurrences e [] = 0.
Proof. done. Qed.

Lemma occurrences_fmap_ConnStop (e : Event) (m : StopMode) (cs : list nat) :
  (∀ c, EvConnStop c m ≠ e) →
  occurrences e ((λ c, EvConnStop c m) <$> cs) = 0.
Proof.
  intros Hne. induction cs as [|c cs IH]; [done|].
  rewrite fmap_cons, occurrences_cons, IH. by rewrite decide_False.
Qed.

Lemma step_listener (l : nat) (a : Label) (σ : World) :
  occurrences (EvListenerClose l) (trace σ)
    + (if decide (lis (srv σ) = Some l) then 1 else 0)
    + sum_list_with (holds l) (goroutines σ)
  ≤ occurrences (EvLog (LogListenOn l)) (trace σ) →
  occurrences (EvListenerClose l) (trace (step a σ))
    + (if decide (lis (srv (step a σ)) = Some l) then 1 else 0)
    + sum_list_with (holds l) (goroutines (step a σ))
  ≤ occurrences (EvLog (LogListenOn l)) (trace (step a σ)).
Proof.
  intros H. destruct (lis (srv σ)) as [l1|] eqn:Hl;
    step_cases a σ; try done;
    rewrite ?sum_list_with_app, ?occurrences_app, ?occurrences_cons,
      ?occurrences_nil, ?occurrences_fmap_ConnStop, ?Hl by done;
    sum_step (holds l) σ;
    repeat case_decide; simplify_eq/=; try congruence; lia.
Qed.

(** X13.  In every interleaving from a fresh server a listener is closed at most
    as often as [net.Listen] has returned it: whichever of [Stop] and the
    deferred function of [Serve] takes it out of [s.lis] closes it, and the
    other finds nil.  A listener that [net.Listen] returned once is closed
    at most once. *)
Theorem listener_closed_at_most_once (opts : nat) (h h' : gmap nat ServerOpts)
    (s : Server) (sched : list Label) (l : nat) :
  NewServer opts h = Some (s, h') →
  let σ := run sched (boot s h') in
  occurrences (EvListenerClose l) (trace σ)
  ≤ occurrences (EvLog (LogListenOn l)) (trace σ).
Proof.
  intros HN σ. destruct (NewServer_fresh _ _ _ _ HN) as [-> _].
  assert (H : ∀ σ0,
    occurrences (EvListenerClose l) (trace σ0)
      + (if decide (lis (srv σ0) = Some l) then 1 else 0)
      + sum_list_with (holds l) (goroutines σ0)
    ≤ occurrences (EvLog (LogListenOn l)) (trace σ0) →
    occurrences (EvListenerClose l) (trace (run sched σ0))
      + (if decide (lis (srv (run sched σ0)) = Some l) then 1 else 0)
      + sum_list_with (holds l) (goroutines (run sched σ0))
    ≤ occurrences (EvLog (LogListenOn l)) (trace (run sched σ0))).
  { induction sched as [|a sched IH]; intros σ0 H0; [done|].
    rewrite run_cons. by apply IH, step_listener. }
  specialize (H (boot (mkServer opts false 0 None (Some ∅)) h')).
  simpl in H. fold σ in H. unfold occurrences in *. simpl in H. lia.
Qed.

(** ** A connection from accept to close *)

Ltac own_step tac :=
  rewrite run_cons;
  erewrite step_Run;
    [ | done
      | first [ eassumption
              | simpl; apply list_lookup_insert_eq; rewrite ?length_insert;
                by eapply lookup_lt_Some ]
      | tac ].

(** X14.  In every interleaving from a fresh server, a call of [handleRawConn]
    that runs from its entry to its end on a registry that is not nil, with
    [NewConn] succeeding and no other goroutine moving meanwhile, registers a
    new connection that wraps its stream, serves it and unregisters it:
    [removeConn] finds the connection, and registry and counter, the whole
    server, are in the end as they were. *)
Theorem handleRawConn_round_trip (opts : nat) (h h' : gmap nat ServerOpts)
    (s : Server) (sched : list Label) (tid conn : nat) :
  NewServer opts h = Some (s, h') →
  let σ := run sched (boot s h') in
  halted σ = false →
  goroutines σ !! tid = Some (GHandle conn HandleEntry) →
  is_Some (conns (srv σ)) →
  let c := next_conn σ in
  let σ' := run [Run tid ONone; Run tid (ONewConn true); Run tid ONone;
                 Run tid ONone; Run tid ONone; Run tid ONone; Run tid ONone] σ in
  srv σ' = srv σ
  ∧ (∃ o, opts_heap σ !! Opts (srv σ) = Some o
       ∧ trace σ' = trace σ ++ [EvNewConn (Handler o) (Protocol o) (SendBufLen o) true;
                                EvAddConn c true; EvConnServe c; EvRemoveConn c true])
  ∧ conn_heap σ' !! c = Some (mkConn (Some conn))
  ∧ goroutines σ' = <[tid := GExit]> (goroutines σ)
  ∧ halted σ' = false.
Proof.
  intros HN σ Hh Hg [m Hm] c σ'.
  destruct (NewServer_fresh _ _ _ _ HN) as [-> [o Ho]].
  assert (Hwg : (0 ≤ wg (srv σ))%Z).
  { unfold σ. rewrite run_wg by done. lia. }
  assert (Ho' : opts_heap σ !! Opts (srv σ) = Some o).
  { unfold σ. destruct (run_opts sched (boot (mkServer opts false 0 None (Some ∅)) h'))
      as [-> ->]. done. }
  assert (Hc : m !! c = None).
  { assert (HI : Inv σ) by apply Inv_run, Inv_boot.
    assert (HR : RegInv σ) by (apply RegInv_run; [apply Inv_boot | apply RegInv_boot]).
    apply eq_None_not_Some. intros Hin.
    apply (HR m Hm c) in Hin as (t & g & Hgt & Hl).
    destruct g as [|conn' pc| |]; try done.
    assert (Hpc : conn_of pc = Some c) by (destruct pc; simpl in *; by subst).
    pose proof (inv_lt σ HI _ _ _ _ Hgt Hpc). unfold c in *. lia. }
  subst σ' c. clearbody σ. clear HN Ho.
  own_step ltac:(simpl; rewrite Hm; reflexivity).
  own_step ltac:(simpl; rewrite Ho'; reflexivity).
  own_step ltac:(simpl; unfold addConn; simpl; rewrite Hm; reflexivity).
  own_step ltac:(reflexivity).
  own_step ltac:(reflexivity).
  own_step ltac:(reflexivity).
  own_step ltac:(reflexivity).
  rewrite run_nil. unfold wg_Done, wg_Add, removeConn, registered. simpl.
  rewrite (proj2 (Z.ltb_ge _ _)) by lia. simpl.
  rewrite lookup_insert_eq, delete_insert_id by done.
  rewrite !list_insert_insert_eq, <- !app_assoc. simpl.
  split_and!.
  - destruct (srv σ) as [o1 st w l cs]; simpl in *. subst cs.
    unfold set_wg, set_conns. simpl. f_equal. lia.
  - by exists o.
  - by rewrite lookup_insert_eq.
  - done.
  - done.
Qed.

Lemma handleRawConn_round_trip_witness :
  let σ := run [CallServe; Run 0 ONone; Run 0 (OListen (Some 9) false); Run 0 ONone;
                Run 0 (OAccept (AcceptConn 33))]
             (boot (mkServer 5 false 0 None (Some ∅))
                {[ 5 := mkServerOpts ":8080" 1 2 128 ]}) in
  let σ' := run [Run 1 ONone; Run 1 (ONewConn true); Run 1 ONone;
                 Run 1 ONone; Run 1 ONone; Run 1 ONone; Run 1 ONone] σ in
  srv σ' = srv σ ∧ halted σ' = false.
Proof.
  intros σ σ'.
  assert (HN : NewServer 5 {[ 5 := mkServerOpts ":8080" 1 2 128 ]}
               = Some (mkServer 5 false 0 None (Some ∅),
                       {[ 5 := mkServerOpts ":8080" 1 2 128 ]})) by reflexivity.
  assert (Hh : halted σ = false) by (vm_compute; reflexivity).
  assert (Hg : goroutines σ !! 1 = Some (GHandle 33 HandleEntry))
    by (vm_compute; reflexivity).
  assert (Hm : is_Some (conns (srv σ))) by (vm_compute; eauto).
  destruct (handleRawConn_round_trip 5 _ _ _
              [CallServe; Run 0 ONone; Run 0 (OListen (Some 9) false); Run 0 ONone;
               Run 0 (OAccept (AcceptConn 33))] 1 33 HN Hh Hg Hm)
    as (H1 & _ & _ & _ & H2).
  split; [exact H1 | exact H2].
Defined.

Lemma listener_closed_at_most_once_witness :
  let σ := run [CallServe; Run 0 ONone; Run 0 (OListen (Some 9) false); Run 0 ONone;
                CallStop StopImmediately; Run 1 ONone; Run 1 ONone; Run 1 ONone;
                Run 0 (OAccept AcceptOtherError); Run 0 ONone; Run 0 ONone]
             (boot (mkServer 5 false 0 None (Some ∅))
                {[ 5 := mkServerOpts ":8080" 1 2 128 ]}) in
  occurrences (EvListenerClose 9) (trace σ)
  ≤ occurrences (EvLog (LogListenOn 9)) (trace σ).
Proof.
  intros σ.
  assert (HN : NewServer 5 {[ 5 := mkServerOpts ":8080" 1 2 128 ]}
               = Some (mkServer 5 false 0 None (Some ∅),
                       {[ 5 := mkServerOpts ":8080" 1 2 128 ]})) by reflexivity.
  exact (listener_closed_at_most_once 5 _ _ _
           [CallServe; Run 0 ONone; Run 0 (OListen (Some 9) false); Run 0 ONone;
            CallStop StopImmediately; Run 1 ONone; Run 1 ONone; Run 1 ONone;
            Run 0 (OAccept AcceptOtherError); Run 0 ONone; Run 0 ONone] 9 HN).
Defined.

(** ** Stopping a connection *)

Lemma stopsOf_app (c : nat) (tr1 tr2 : list Event) :
  stopsOf c (tr1 ++ tr2) = stopsOf c tr1 + stopsOf c tr2.
Proof. unfold stopsOf. by rewrite List.filter_app, length_app. Qed.

Lemma stopsOf_cons (c : nat) (e : Event) (tr : list Event) :
  stopsOf c (e :: tr) = (if is_stopOf c e then 1 else 0) + stopsOf c tr.
Proof. unfold stopsOf. simpl. by destruct (is_stopOf c e). Qed.

Lemma stopsOf_nil (c : nat) : stopsOf c [] = 0.
Proof. done. Qed.

Lemma stopsOf_fanout (c : nat) (m : StopMode) (cs : list nat) :
  NoDup cs →
  stopsOf c ((λ c', EvConnStop c' m) <$> cs) = if decide (c ∈ cs) then 1 else 0.
Proof.
  unfold stopsOf. induction 1 as [|c' cs Hni _ IH]; [done|].
  rewrite fmap_cons. simpl.
  case_bool_decide; simpl; rewrite IH; repeat case_decide; set_solver.
Qed.

(** The loop of [Stop] stops each connection of the registry it took once. *)
Lemma stopsOf_rangeConns (c : nat) (m : StopMode) (R : option (gmap nat bool)) :
  stopsOf c ((λ c', EvConnStop c' m) <$> rangeConns R) = in_registry c R.
Proof.
  rewrite stopsOf_fanout by apply rangeConns_NoDup.
  destruct R as [mp|]; simpl; [|done].
  assert (E : c ∈ (map_to_list mp).*1 ↔ is_Some (mp !! c)).
  { rewrite list_elem_of_fmap. split.
    - intros [[c' b] [-> Hin]]. apply elem_of_map_to_list in Hin. by exists b.
    - intros [b Hb]. exists (c, b). split; [done|]. by apply elem_of_map_to_list. }
  repeat case_decide; tauto.
Qed.

Lemma in_registry_nil (c : nat) : in_registry c None = 0.
Proof. done. Qed.

#[local] Arguments in_registry : simpl never.

Lemma in_registry_insert (c c0 : nat) (m : gmap nat bool) :
  in_registry c (Some (<[c0 := true]> m))
  = if decide (c0 = c) then 1 else in_registry c (Some m).
Proof.
  unfold in_registry. destruct (decide (c0 = c)) as [->|E].
  - rewrite lookup_insert_eq. by rewrite decide_True by eauto.
  - by rewrite lookup_insert_ne.
Qed.

Lemma in_registry_delete (c c0 : nat) (m : gmap nat bool) :
  in_registry c (Some (delete c0 m))
  = if decide (c0 = c) then 0 else in_registry c (Some m).
Proof.
  unfold in_registry. destruct (decide (c0 = c)) as [->|E].
  - rewrite lookup_delete_eq. rewrite decide_False; [done|]. by intros [? ?].
  - by rewrite lookup_delete_ne.
Qed.

Lemma step_owed (c : nat) (a : Label) (σ : World) :
  owed c σ ≤ 1 ∧ (next_conn σ ≤ c → owed c σ = 0) →
  owed c (step a σ) ≤ 1 ∧ (next_conn (step a σ) ≤ c → owed c (step a σ) = 0).
Proof.
  unfold owed. intros H.
  step_cases a σ; try done;
    rewrite ?sum_list_with_app, ?stopsOf_app, ?stopsOf_rangeConns,
      ?in_registry_insert, ?in_registry_delete, ?stopsOf_cons, ?stopsOf_nil;
    sum_step (pending c) σ;
    simpl in *;
    try match goal with E : conns (srv σ) = _ |- _ => rewrite ?E in H; rewrite ?E end;
    simpl in *; rewrite ?in_registry_insert, ?in_registry_delete, ?in_registry_nil in *;
    repeat case_bool_decide; repeat case_decide; simplify_eq/=; try lia.
Qed.

Lemma run_owed (c : nat) (sched : list Label) (σ : World) :
  owed c σ ≤ 1 ∧ (next_conn σ ≤ c → owed c σ = 0) →
  owed c (run sched σ) ≤ 1
  ∧ (next_conn (run sched σ) ≤ c → owed c (run sched σ) = 0).
Proof.
  revert σ. induction sched as [|a sched IH]; intros σ H; [done|].
  rewrite run_cons. by apply IH, step_owed.
Qed.

(** X15.  In every interleaving from a fresh server, the server calls [Stop] on
    a connection at most once: the loop of [Stop] on the connections of the
    registry it took, [handleRawConn] on a connection that [addConn] refused,
    and never both.  A connection that is in the registry has not been
    stopped by the server, nor has a connection that [NewConn] has not yet
    returned. *)
Theorem connection_stopped_at_most_once (opts : nat) (h h' : gmap nat ServerOpts)
    (s : Server) (sched : list Label) (c : nat) :
  NewServer opts h = Some (s, h') →
  let σ := run sched (boot s h') in
  stopsOf c (trace σ) + in_registry c (conns (srv σ)) ≤ 1
  ∧ (next_conn σ ≤ c → stopsOf c (trace σ) = 0).
Proof.
  intros HN σ. destruct (NewServer_fresh _ _ _ _ HN) as [-> _].
  destruct (run_owed c sched (boot (mkServer opts false 0 None (Some ∅)) h'))
    as [H1 H2].
  { unfold owed, in_registry. simpl. rewrite lookup_empty.
    rewrite decide_False by (by intros [? ?]). split; [lia | done]. }
  fold σ in H1, H2. unfold owed in *. split; [lia|]. intros Hc.
  specialize (H2 Hc). lia.
Qed.

Lemma connection_stopped_at_most_once_witness :
  let σ := run [CallServe; Run 0 ONone; Run 0 (OListen (Some 9) false); Run 0 ONone;
                Run 0 (OAccept (AcceptConn 33)); Run 1 ONone; Run 1 (ONewConn true);
                Run 1 ONone; CallStop StopImmediately; Run 2 ONone; Run 2 ONone;
                Run 2 ONone; Run 2 ONone]
             (boot (mkServer 5 false 0 None (Some ∅))
                {[ 5 := mkServerOpts ":8080" 1 2 128 ]}) in
  stopsOf 0 (trace σ) + in_registry 0 (conns (srv σ)) ≤ 1
  ∧ (next_conn σ ≤ 0 → stopsOf 0 (trace σ) = 0).
Proof.
  intros σ.
  assert (HN : NewServer 5 {[ 5 := mkServerOpts ":8080" 1 2 128 ]}
               = Some (mkServer 5 false 0 None (Some ∅),
                       {[ 5 := mkServerOpts ":8080" 1 2 128 ]})) by reflexivity.
  exact (connection_stopped_at_most_once 5 _ _ _
           [CallServe; Run 0 ONone; Run 0 (OListen (Some 9) false); Run 0 ONone;
            Run 0 (OAccept (AcceptConn 33)); Run 1 ONone; Run 1 (ONewConn true);
            Run 1 ONone; CallStop StopImmediately; Run 2 ONone; Run 2 ONone;
            Run 2 ONone; Run 2 ONone] 0 HN).
Defined.

(** ** The life of a connection *)

Lemma removeCalls_cons (c : nat) (e : Event) (tr : list Event) :
  removeCalls c (e :: tr) = (if is_removeConn c e then 1 else 0) + removeCalls c tr.
Proof. unfold removeCalls. simpl. by destruct (is_removeConn c e). Qed.

Lemma removeCalls_nil (c : nat) : removeCalls c [] = 0.
Proof. done. Qed.

Lemma removeCalls_fmap_ConnStop (c : nat) (m : StopMode) (cs : list nat) :
  removeCalls c ((λ c', EvConnStop c' m) <$> cs) = 0.
Proof. unfold removeCalls. by induction cs. Qed.

Lemma step_Lifecycle (c : nat) (a : Label) (σ : World) :
  Lifecycle c σ → Lifecycle c (step a σ).
Proof.
  intros [H1 H2 H3 H4].
  step_cases a σ; try done; split; simpl;
    rewrite ?sum_list_with_app, ?occurrences_app, ?occurrences_cons,
      ?occurrences_nil, ?removeCalls_app, ?removeCalls_cons, ?removeCalls_nil,
      ?removeCalls_fmap_ConnStop, ?occurrences_fmap_ConnStop by done;
    sum_step (adding c) σ; sum_step (serving c) σ; sum_step (removing c) σ;
    simpl in *;
    repeat case_bool_decide; repeat case_decide; simplify_eq/=; try lia.
Qed.

Lemma run_Lifecycle (c : nat) (sched : list Label) (σ : World) :
  Lifecycle c σ → Lifecycle c (run sched σ).
Proof.
  revert σ. induction sched as [|a sched IH]; intros σ H; [done|].
  rewrite run_cons. by apply IH, step_Lifecycle.
Qed.

(** X16.  In every interleaving from a fresh server and for every connection:
    [addConn] is called on it at most once, and not before [NewConn] has
    returned it; [serve] is called only after an [addConn] that returned
    true, and once for it, unless the call of [handleRawConn] is still on
    its way there; [removeConn] is called only after [serve], and once for
    it, unless the call is still on its way there.  So a connection that
    [addConn] refused is never served, and no connection is served or
    removed twice. *)
Theorem connection_lifecycle (opts : nat) (h h' : gmap nat ServerOpts)
    (s : Server) (sched : list Label) (c : nat) :
  NewServer opts h = Some (s, h') →
  let σ := run sched (boot s h') in
  let added := occurrences (EvAddConn c true) (trace σ) in
  let refused := occurrences (EvAddConn c false) (trace σ) in
  let served := occurrences (EvConnServe c) (trace σ) in
  let removed := removeCalls c (trace σ) in
  added + refused + sum_list_with (adding c) (goroutines σ) ≤ 1
  ∧ served + sum_list_with (serving c) (goroutines σ) = added
  ∧ removed + sum_list_with (removing c) (goroutines σ) = served
  ∧ (next_conn σ ≤ c → added + refused = 0).
Proof.
  intros HN σ. destruct (NewServer_fresh _ _ _ _ HN) as [-> _].
  assert (H : Lifecycle c σ).
  { apply run_Lifecycle. split; intros; unfold occurrences, removeCalls; simpl; lia. }
  destruct H as [H1 H2 H3 H4]. simpl. split_and!; try done.
  intros Hc. specialize (H2 Hc). lia.
Qed.

Lemma connection_lifecycle_witness :
  let σ := run [CallServe; Run 0 ONone; Run 0 (OListen (Some 9) false); Run 0 ONone;
                Run 0 (OAccept (AcceptConn 33)); Run 1 ONone; Run 1 (ONewConn true);
                Run 1 ONone; Run 1 ONone; Run 1 ONone]
             (boot (mkServer 5 false 0 None (Some ∅))
                {[ 5 := mkServerOpts ":8080" 1 2 128 ]}) in
  let added := occurrences (EvAddConn 0 true) (trace σ) in
  let refused := occurrences (EvAddConn 0 false) (trace σ) in
  let served := occurrences (EvConnServe 0) (trace σ) in
  let removed := removeCalls 0 (trace σ) in
  added + refused + sum_list_with (adding 0) (goroutines σ) ≤ 1
  ∧ served + sum_list_with (serving 0) (goroutines σ) = added
  ∧ removed + sum_list_with (removing 0) (goroutines σ) = served
  ∧ (next_conn σ ≤ 0 → added + refused = 0).
Proof.
  assert (HN : NewServer 5 {[ 5 := mkServerOpts ":8080" 1 2 128 ]}
               = Some (mkServer 5 false 0 None (Some ∅),
                       {[ 5 := mkServerOpts ":8080" 1 2 128 ]})) by reflexivity.
  exact (connection_lifecycle 5 _ _ _
           [CallServe; Run 0 ONone; Run 0 (OListen (Some 9) false); Run 0 ONone;
            Run 0 (OAccept (AcceptConn 33)); Run 1 ONone; Run 1 (ONewConn true);
            Run 1 ONone; Run 1 ONone; Run 1 ONone] 0 HN).
Defined.

(** ** What [s.wg.Wait()] does not wait for *)

Lemma step_CallServe (σ : World) :
  halted σ = false → step CallServe σ = go (GServe ServeEntry) σ.
Proof. intros H. unfold step. by rewrite H. Qed.

Lemma step_CallStop (mode : StopMode) (σ : World) :
  halted σ = false → step (CallStop mode) σ = go (GStop mode StopClose) σ.
Proof. intros H. unfold step. by rewrite H. Qed.

#[local] Arguments run : simpl never.

(** One step of a given interleaving from a world that is written out. *)
Ltac sched_step h' opts Ho :=
  rewrite run_cons;
  lazymatch goal with
  | |- run _ (step CallServe _) = _ => rewrite step_CallServe by reflexivity
  | |- run _ (step (CallStop _) _) = _ => rewrite step_CallStop by reflexivity
  | |- run _ (step (Run _ _) _) = _ =>
      erewrite step_Run;
        [ | reflexivity | reflexivity
          | first [ reflexivity
                  | unfold gstep, Serve_step, handleRawConn_step;
                    cbv beta iota zeta;
                    change (opts_heap _ !! Opts _) with (h' !! opts);
                    rewrite Ho; reflexivity ] ]
  end;
  cbv beta iota zeta delta
    [goto emit with_srv go wg_Add alloc_conn halt srv opts_heap conn_heap next_conn
     goroutines trace halted set_wg set_lis set_conns set_stop Opts stop wg lis conns];
  simpl.

(** X17.  The counter does not cover a call of [handleRawConn] between its
    [addConn] and line 169.  For every fresh server, listener and stream there
    is an interleaving with one [Stop], of mode [StopGracefullyAndWait], in
    which the connection of the stream is registered before [Stop] begins,
    [Stop] stops it, is through with [s.wg.Wait()] and logs its end, and the
    connection is served only after that. *)
Theorem Wait_can_return_before_serve (opts : nat) (h h' : gmap nat ServerOpts)
    (s : Server) (l conn : nat) :
  NewServer opts h = Some (s, h') →
  ∃ sched evs c,
    let σ := run sched (boot s h') in
    stopCalls sched = 1
    ∧ halted σ = false
    ∧ conn_heap σ !! c = Some (mkConn (Some conn))
    ∧ trace σ = evs ++ [EvAddConn c true; EvStopClosed; EvListenerClose l;
                        EvConnStop c StopGracefullyButNotWait;
                        EvWgWait; EvLog LogServerStop; EvConnServe c].
Proof.
  intros HN. destruct (NewServer_fresh _ _ _ _ HN) as [-> [o Ho]].
  eassert (E : run (lateServe l conn) (boot (mkServer opts false 0 None (Some ∅)) h')
               = _).
  { unfold lateServe, boot. do 19 sched_step h' opts Ho.
    rewrite run_nil. reflexivity. }
  exists (lateServe l conn), [EvListen (LisAddr o); EvLog (LogListenOn l);
    EvNewConn (Handler o) (Protocol o) (SendBufLen o) true], 0.
  cbv zeta. rewrite E. split_and!; reflexivity.
Qed.

Lemma Wait_can_return_before_serve_witness :
  ∃ sched evs c,
    let σ := run sched (boot (mkServer 5 false 0 None (Some ∅))
                          {[ 5 := mkServerOpts ":8080" 1 2 128 ]}) in
    stopCalls sched = 1
    ∧ halted σ = false
    ∧ conn_heap σ !! c = Some (mkConn (Some 33))
    ∧ trace σ = evs ++ [EvAddConn c true; EvStopClosed; EvListenerClose 9;
                        EvConnStop c StopGracefullyButNotWait;
                        EvWgWait; EvLog LogServerStop; EvConnServe c].
Proof.
  assert (HN : NewServer 5 {[ 5 := mkServerOpts ":8080" 1 2 128 ]}
               = Some (mkServer 5 false 0 None (Some ∅),
                       {[ 5 := mkServerOpts ":8080" 1 2 128 ]})) by reflexivity.
  exact (Wait_can_return_before_serve 5 _ _ _ 9 33 HN).
Defined.
